(** * hypertrial: cycle-segmented SPD evaluation and constrained weight allocation

    A shallow embedding of [core/spd.py] (compute_cycle_spd,
    backtest_dynamic_dca) and of
    [core/strategies/dynamic_dca_100ma.py] (compute_weights), with the
    properties of the specification stated over it.

    Modelling conventions.
    - A pandas [Timestamp] of a daily index is its calendar fields; order is
      the lexicographic order on (year, month, day).
    - A float is an exact rational [Q]; rounding is not modelled.  The
      non-finite floats (NaN, +inf, -inf) that the division by the SPD
      range can produce are modelled by [fval].  A NaN read from a column
      is [None].  Prices are positive (data model), so [1 / price] is the
      division of [Q]; the results on prices are stated for positive
      prices only.
    - A pandas [Series] is an association list from index label to value,
      in index order; a [DataFrame] is the list of its rows.
    - A Python exception is an [Err] result. *)

From Stdlib Require Import ZArith QArith Lqa Lia List Bool Sorted.
From Stdlib Require Import Permutation.
From Stdlib Require Ascii String.
Import ListNotations.

(* ================================================================== *)
(** * Calendar dates *)
(* ================================================================== *)

Module Date.

Local Open Scope Z_scope.

Record Timestamp := mkTimestamp { year : Z; month : Z; day : Z }.

Definition is_leap (y : Z) : bool :=
  ((y mod 4 =? 0) && negb (y mod 100 =? 0)) || (y mod 400 =? 0).

Definition days_in_month (y m : Z) : Z :=
  if m =? 2 then (if is_leap y then 29 else 28)
  else if (m =? 4) || (m =? 6) || (m =? 9) || (m =? 11) then 30
  else 31.

(** Every [Timestamp] pandas can build is a date of the calendar. *)
Definition valid (d : Timestamp) : bool :=
  (1 <=? month d) && (month d <=? 12) &&
  (1 <=? day d) && (day d <=? days_in_month (year d) (month d)).

(** [a < b], [a <= b], [a == b] on timestamps. *)
Definition ltb (a b : Timestamp) : bool :=
  (year a <? year b) ||
  ((year a =? year b) &&
   ((month a <? month b) || ((month a =? month b) && (day a <? day b)))).

Definition eqb (a b : Timestamp) : bool :=
  (year a =? year b) && (month a =? month b) && (day a =? day b).

Definition leb (a b : Timestamp) : bool := ltb a b || eqb a b.

(** [min(a, b)] of two timestamps. *)
Definition min (a b : Timestamp) : Timestamp := if leb a b then a else b.
Definition max (a b : Timestamp) : Timestamp := if leb a b then b else a.

(** [d + pd.DateOffset(years=n)]: the year moves by [n]; a day that the
    target month does not have (29 February) is clipped to its last day. *)
Definition add_years (n : Z) (d : Timestamp) : Timestamp :=
  mkTimestamp (year d + n) (month d)
              (Z.min (day d) (days_in_month (year d + n) (month d))).

(** [d - pd.Timedelta(days=1)]. *)
Definition sub_one_day (d : Timestamp) : Timestamp :=
  if 1 <? day d then mkTimestamp (year d) (month d) (day d - 1)
  else if 1 <? month d
       then mkTimestamp (year d) (month d - 1)
                        (days_in_month (year d) (month d - 1))
       else mkTimestamp (year d - 1) 12 31.

(** [Index.min()] / [Index.max()]; [None] is NaT, the answer on an empty
    index. *)
Definition index_min (l : list Timestamp) : option Timestamp :=
  match l with
  | [] => None
  | d :: r => Some (fold_left min r d)
  end.

Definition index_max (l : list Timestamp) : option Timestamp :=
  match l with
  | [] => None
  | d :: r => Some (fold_left max r d)
  end.

End Date.

Import Date.

(* ================================================================== *)
(** * Floats, series and frames *)
(* ================================================================== *)

Local Open Scope Q_scope.

Definition Qltb (x y : Q) : bool := negb (Qle_bool y x).

(** A float: a finite value or one of the three non-finite ones. *)
Inductive fval : Type :=
| Fin (q : Q)
| PInf
| NInf
| NaN.

Definition is_nan (x : fval) : bool :=
  match x with NaN => true | _ => false end.

Definition is_finite (x : fval) : bool :=
  match x with Fin _ => true | _ => false end.

(** [a / b] on two finite floats: a zero divisor gives NaN for [0 / 0] and
    an infinity of the sign of [a] otherwise (the divisors of the source
    are differences, so a zero divisor is [+0.0]). *)
Definition fdiv (a b : Q) : fval :=
  if Qeq_bool b 0
  then (if Qeq_bool a 0 then NaN else if Qltb 0 a then PInf else NInf)
  else Fin (a / b).

(** [x * c] for a finite constant [c]. *)
Definition fmul (x : fval) (c : Q) : fval :=
  match x with
  | Fin q => Fin (q * c)
  | NaN => NaN
  | PInf => if Qeq_bool c 0 then NaN else if Qltb 0 c then PInf else NInf
  | NInf => if Qeq_bool c 0 then NaN else if Qltb 0 c then NInf else PInf
  end.

Definition fadd (x y : fval) : fval :=
  match x, y with
  | NaN, _ | _, NaN => NaN
  | Fin a, Fin b => Fin (a + b)
  | PInf, NInf | NInf, PInf => NaN
  | PInf, _ | _, PInf => PInf
  | NInf, _ | _, NInf => NInf
  end.

Definition fopp (x : fval) : fval :=
  match x with
  | Fin q => Fin (- q)
  | PInf => NInf
  | NInf => PInf
  | NaN => NaN
  end.

Definition fsub (x y : fval) : fval := fadd x (fopp y).

(** [x <= y] on floats; false as soon as one side is NaN. *)
Definition fleb (x y : fval) : bool :=
  match x, y with
  | NaN, _ | _, NaN => false
  | NInf, _ => true
  | _, PInf => true
  | Fin a, Fin b => Qle_bool a b
  | _, _ => false
  end.

(** One row of the price frame: the index label and the columns the core
    reads.  [std100] is NaN ([None]) where the rolling deviation has a
    single observation. *)
Record Row : Type := mkRow {
  date : Timestamp;
  btc_close : Q;
  ma100 : Q;
  std100 : option Q
}.

Definition DataFrame : Type := list Row.

(** A series of floats indexed by date; [None] is NaN. *)
Definition Series : Type := list (Timestamp * option Q).

(** The constants of [core.config]. *)
Record Config : Type := mkConfig {
  BACKTEST_START : Timestamp;
  BACKTEST_END : Timestamp;
  ALPHA : Q;
  REBALANCE_WINDOW : Z;
  MIN_WEIGHT : Q
}.

(** [df.loc[start:end]] on a date index: both ends included. *)
Definition loc_slice (df : DataFrame) (start stop : Timestamp) : DataFrame :=
  filter (fun r => leb start (date r) && leb (date r) stop) df.

Fixpoint Qsum (l : list Q) : Q :=
  match l with
  | [] => 0
  | x :: r => x + Qsum r
  end.

Inductive error : Type :=
| KeyError.

Inductive result (A : Type) : Type :=
| Ok (a : A)
| Err (e : error).

Arguments Ok {A} a.
Arguments Err {A} e.

Definition bind {A B : Type} (m : result A) (f : A -> result B) : result B :=
  match m with
  | Ok a => f a
  | Err e => Err e
  end.

Notation "x <- m ;; k" := (bind m (fun x => k))
  (at level 61, m at next level, right associativity).

Fixpoint mapM {A B : Type} (f : A -> result B) (l : list A) : result (list B) :=
  match l with
  | [] => Ok []
  | a :: r => b <- f a ;; bs <- mapM f r ;; Ok (b :: bs)
  end.

(* ================================================================== *)
(** * WeightAllocator: [DynamicDCA100MAStrategy.compute_weights] *)
(* ================================================================== *)

Module Allocator.

(** [(dt.year - start_year) // 4]. *)
Definition cycle_label (start_year : Z) (dt : Timestamp) : Z :=
  ((year dt - start_year) / 4)%Z.

(** The group keys of [groupby]: the distinct labels in increasing order. *)
Fixpoint insert_key (k : Z) (ks : list Z) : list Z :=
  match ks with
  | [] => [k]
  | h :: t =>
      if (k <? h)%Z then k :: ks
      else if (k =? h)%Z then ks
      else h :: insert_key k t
  end.

Definition group_keys (labels : list Z) : list Z :=
  fold_right insert_key [] labels.

(** [df.groupby(labels)]: one group per key, rows in frame order. *)
Definition groupby (label : Row -> Z) (df : DataFrame)
  : list (Z * DataFrame) :=
  map (fun k => (k, filter (fun r => (label r =? k)%Z) df))
      (group_keys (map label df)).

(** [temp_weights[i] = v]. *)
Fixpoint upd (i : nat) (v : Q) (w : list Q) : list Q :=
  match w, i with
  | [], _ => []
  | _ :: r, O => v :: r
  | x :: r, S j => x :: upd j v r
  end.

(** [temp_weights[np.arange(start, N)] -= reduction]. *)
Fixpoint sub_from (start : nat) (reduction : Q) (w : list Q) : list Q :=
  match start, w with
  | _, [] => []
  | O, x :: r => (x - reduction) :: sub_from O reduction r
  | S s, x :: r => x :: sub_from s reduction r
  end.

Section Scan.

Variable cfg : Config.
Variable group : DataFrame.

(** The four ways through the body of [for i in range(N)]. *)
Inductive outcome : Type :=
| NoBoost                          (* the price test fails *)
| Skip                             (* [continue]: no day to draw from *)
| Commit (start : nat) (w : list Q) (* both assignments are done *)
| Reject.                          (* [strategy_active = False] *)

Definition attempt (i : nat) (temp_weights : list Q) : outcome :=
  let N := length group in
  match nth_error group i with
  | None => NoBoost                (* not reached: [i < N] *)
  | Some r =>
      let price := btc_close r in
      let ma := ma100 r in
      match std100 r with
      | None => NoBoost
      | Some sd =>
          if Qltb price ma && Qltb 0 sd then
            let z := (ma - price) / sd in
            let boost_multiplier := 1 + ALPHA cfg * z in
            let current_weight := nth i temp_weights 0 in
            let boosted_weight := current_weight * boost_multiplier in
            let excess := boosted_weight - current_weight in
            let start_redistribution :=
              Z.max (Z.of_nat N - REBALANCE_WINDOW cfg) (Z.of_nat i + 1) in
            if (Z.of_nat N <=? start_redistribution)%Z
            then Skip
            else
              let start := Z.to_nat start_redistribution in
              let reduction := excess / inject_Z (Z.of_nat (N - start)) in
              let projected :=
                map (fun w => w - reduction) (skipn start temp_weights) in
              if forallb (fun p => Qle_bool (MIN_WEIGHT cfg) p) projected
              then Commit start
                     (sub_from start reduction
                        (upd i boosted_weight temp_weights))
              else Reject
          else NoBoost
      end
  end.

(** The body after the [strategy_active] test: the new weights and the
    new value of [strategy_active]. *)
Definition body (i : nat) (temp_weights : list Q) : list Q * bool :=
  match attempt i temp_weights with
  | NoBoost | Skip => (temp_weights, true)
  | Commit _ w => (w, true)
  | Reject => (temp_weights, false)
  end.

(** The loop over the remaining indices; [break] as soon as
    [strategy_active] is false. *)
Fixpoint scan (indices : list nat) (temp_weights : list Q)
         (strategy_active : bool) : list Q :=
  match indices with
  | [] => temp_weights
  | i :: rest =>
      if negb strategy_active then temp_weights
      else let '(w, a) := body i temp_weights in scan rest w a
  end.

Definition cycle_weights : list Q :=
  let N := length group in
  let base_weight := 1 / inject_Z (Z.of_nat N) in
  scan (seq 0 N) (repeat base_weight N) true.

(** The same loop with a ghost mark per day, set when the day is in the
    window of a committed redistribution. *)
Fixpoint mark_from (start : nat) (m : list bool) : list bool :=
  match start, m with
  | _, [] => []
  | O, _ :: r => true :: mark_from O r
  | S s, b :: r => b :: mark_from s r
  end.

Fixpoint scan_marked (indices : list nat) (temp_weights : list Q)
         (reduced : list bool) (strategy_active : bool)
  : list Q * list bool :=
  match indices with
  | [] => (temp_weights, reduced)
  | i :: rest =>
      if negb strategy_active then (temp_weights, reduced)
      else match attempt i temp_weights with
           | NoBoost | Skip => scan_marked rest temp_weights reduced true
           | Commit start w => scan_marked rest w (mark_from start reduced) true
           | Reject => scan_marked rest temp_weights reduced false
           end
  end.

Definition reduced_days : list bool :=
  let N := length group in
  let base_weight := 1 / inject_Z (Z.of_nat N) in
  snd (scan_marked (seq 0 N) (repeat base_weight N) (repeat false N) true).

End Scan.

(** The invariant of the scan: no weight is negative, and a marked day
    holds at least the floor. *)
Definition floor_inv (cfg : Config) : list Q -> list bool -> Prop :=
  Forall2 (fun (x : Q) (b : bool) =>
             0 <= x /\ (b = true -> MIN_WEIGHT cfg <= x)).

(** [weights.loc[k] = v] for one label of a unique index. *)
Definition set_loc (k : Timestamp) (v : Q) (weights : Series) : Series :=
  map (fun e => if eqb (fst e) k then (fst e, Some v) else e) weights.

(** [weights.loc[index] = values]. *)
Definition loc_assign (weights : Series) (index : list Timestamp)
           (values : list Q) : Series :=
  fold_left (fun s kv => set_loc (fst kv) (snd kv) s)
            (combine index values) weights.

Definition compute_weights (cfg : Config) (df : DataFrame) : Series :=
  let df := loc_slice df (BACKTEST_START cfg) (BACKTEST_END cfg) in
  let weights : Series := map (fun r => (date r, None)) df in
  let start_year := year (BACKTEST_START cfg) in
  fold_left
    (fun weights g =>
       loc_assign weights (map date (snd g)) (cycle_weights cfg (snd g)))
    (groupby (fun r => cycle_label start_year (date r)) df)
    weights.

End Allocator.

(* ================================================================== *)
(** * CycleEvaluator and SummaryReducer: [core/spd.py] *)
(* ================================================================== *)

Module Evaluator.

(** One iteration of the [while] loop: [current], [end_date] and the
    slice [cycle]. *)
Record Cycle : Type := mkCycle {
  c_start : Timestamp;
  c_end : Timestamp;
  c_rows : DataFrame
}.

(** [cycle_mask]: the rows from [current] to [end_date], both included. *)
Definition in_cycle (current end_date : Timestamp) (r : Row) : bool :=
  leb current (date r) && leb (date r) end_date.

(** The [while current <= df_backtest.index.max()] loop; [hi] is the
    index maximum.  The rest of the body reads [cycle] only, so the loop
    is the enumeration of the cycles; [None] is fuel exhausted. *)
Fixpoint cycle_loop (fuel : nat) (df_backtest : DataFrame)
         (hi current : Timestamp) : option (list Cycle) :=
  match fuel with
  | O => None
  | S fuel' =>
      if leb current hi then
        let cycle_end := sub_one_day (add_years 4 current) in
        let end_date := min cycle_end hi in
        let cycle := filter (in_cycle current end_date) df_backtest in
        match cycle with
        | [] => Some []
        | _ :: _ =>
            option_map (cons (mkCycle current end_date cycle))
                       (cycle_loop fuel' df_backtest hi (add_years 4 current))
        end
      else Some []
  end.

(** The year of [current] grows by four at each iteration and never
    passes the year of [hi]: this many iterations are enough. *)
Definition loop_fuel (lo hi : Timestamp) : nat :=
  S (Z.to_nat (year hi - year lo + 1)).

(** The cycles of a window; an empty window has [NaT] bounds, the loop
    condition is false and no cycle is formed. *)
Definition cycles (df_backtest : DataFrame) : list Cycle :=
  match index_min (map date df_backtest), index_max (map date df_backtest) with
  | Some lo, Some hi =>
      match cycle_loop (loop_fuel lo hi) df_backtest hi lo with
      | Some cs => cs
      | None => []
      end
  | _, _ => []
  end.


Record CycleRow : Type := mkCycleRow {
  cycle : Z * Z;
  min_spd : Q;
  max_spd : Q;
  uniform_spd : Q;
  dynamic_spd : Q;
  uniform_pct : fval;
  dynamic_pct : fval;
  excess_pct : fval
}.

Definition Qmaxb (a b : Q) : Q := if Qle_bool a b then b else a.
Definition Qminb (a b : Q) : Q := if Qle_bool a b then a else b.

(** [np.max] / [np.min] of a non-empty array. *)
Definition np_max (l : list Q) : Q :=
  match l with [] => 0 | x :: r => fold_left Qmaxb r x end.
Definition np_min (l : list Q) : Q :=
  match l with [] => 0 | x :: r => fold_left Qminb r x end.

Definition mean (l : list Q) : Q := Qsum l / inject_Z (Z.of_nat (length l)).

(** [.fillna(0)] and [.clip(lower=0)]. *)
Definition fillna (s : Series) : list (Timestamp * Q) :=
  map (fun e => (fst e, match snd e with Some v => v | None => 0 end)) s.

Definition clip_lower (s : list (Timestamp * Q)) : list (Timestamp * Q) :=
  map (fun e => (fst e, if Qltb (snd e) 0 then 0 else snd e)) s.

(** [s.loc[d]] for one label, and [s.loc[index]] for a list of labels: a
    label that the series does not have raises KeyError. *)
Fixpoint loc1 (s : list (Timestamp * Q)) (d : Timestamp) : result Q :=
  match s with
  | [] => Err KeyError
  | e :: r => if eqb (fst e) d then Ok (snd e) else loc1 r d
  end.

Definition loc (s : list (Timestamp * Q)) (index : list Timestamp)
  : result (list Q) :=
  mapM (loc1 s) index.

Definition sats : Q := 100000000.

(** The body of the loop from [cycle_label] to [rows.append]. *)
Definition cycle_row (full_weights : list (Timestamp * Q)) (c : Cycle)
  : result CycleRow :=
  let cycle := c_rows c in
  let cycle_prices := map btc_close cycle in
  let high := np_max cycle_prices in
  let low := np_min cycle_prices in
  let min_spd := (1 / high) * sats in
  let max_spd := (1 / low) * sats in
  let cycle_inverted := map (fun r => (1 / btc_close r) * sats) cycle in
  let uniform_spd := mean cycle_inverted in
  w_slice <- loc full_weights (map date cycle) ;;
  let dynamic_spd :=
    Qsum (map (fun p => fst p * snd p) (combine w_slice cycle_inverted)) in
  let spd_range := max_spd - min_spd in
  let uniform_pct := fmul (fdiv (uniform_spd - min_spd) spd_range) 100 in
  let dynamic_pct := fmul (fdiv (dynamic_spd - min_spd) spd_range) 100 in
  let excess_pct := fsub dynamic_pct uniform_pct in
  Ok (mkCycleRow (year (c_start c), year (c_end c))
                 min_spd max_spd uniform_spd dynamic_spd
                 uniform_pct dynamic_pct excess_pct).

(** [compute_cycle_spd(df, strategy_name)], with the strategy function
    that [get_strategy] returns passed in.  [pd.DataFrame(rows)] of no row
    has no column, and [set_index('cycle')] raises KeyError on it. *)
Definition compute_cycle_spd (cfg : Config) (df : DataFrame)
           (weight_fn : DataFrame -> Series) : result (list CycleRow) :=
  let df_backtest := loc_slice df (BACKTEST_START cfg) (BACKTEST_END cfg) in
  let full_weights := clip_lower (fillna (weight_fn df)) in
  rows <- mapM (cycle_row full_weights) (cycles df_backtest) ;;
  match rows with
  | [] => Err KeyError
  | _ :: _ => Ok rows
  end.

(** ** The reductions of a float column ([skipna=True]) *)

Definition dropna (l : list fval) : list fval :=
  filter (fun x => negb (is_nan x)) l.

Definition fminb (a b : fval) : fval := if fleb a b then a else b.
Definition fmaxb (a b : fval) : fval := if fleb a b then b else a.

Definition series_min (l : list fval) : fval :=
  match dropna l with [] => NaN | x :: r => fold_left fminb r x end.

Definition series_max (l : list fval) : fval :=
  match dropna l with [] => NaN | x :: r => fold_left fmaxb r x end.

Definition fsum (l : list fval) : fval := fold_left fadd l (Fin 0).

Definition series_mean (l : list fval) : fval :=
  match dropna l with
  | [] => NaN
  | x :: r =>
      fmul (fsum (x :: r)) (1 / inject_Z (Z.of_nat (length (x :: r))))
  end.

Fixpoint insert_sorted (x : fval) (l : list fval) : list fval :=
  match l with
  | [] => [x]
  | y :: r => if fleb x y then x :: l else y :: insert_sorted x r
  end.

Definition sort (l : list fval) : list fval := fold_right insert_sorted [] l.

Definition series_median (l : list fval) : fval :=
  match dropna l with
  | [] => NaN
  | x :: r =>
      let s := sort (x :: r) in
      let n := length s in
      if Nat.even n
      then fmul (fadd (nth (n / 2 - 1) s NaN) (nth (n / 2) s NaN)) (1 / 2)
      else nth (n / 2) s NaN
  end.

Record Metrics : Type := mkMetrics {
  m_min : fval;
  m_max : fval;
  m_mean : fval;
  m_median : fval
}.

Definition metrics_of (column : list fval) : Metrics :=
  mkMetrics (series_min column) (series_max column)
            (series_mean column) (series_median column).

(** The aggregation of [backtest_dynamic_dca]: [dynamic_spd_metrics] and
    [dynamic_pct_metrics] of a cycle table. *)
Definition summarize (df_res : list CycleRow) : Metrics * Metrics :=
  let dynamic_spd := map (fun r => Fin (dynamic_spd r)) df_res in
  let dynamic_pct := map dynamic_pct df_res in
  (metrics_of dynamic_spd, metrics_of dynamic_pct).

(** [backtest_dynamic_dca(df, strategy_name, show_plots=False)]: the
    table it returns, with the two metric dictionaries it prints. *)
Definition backtest_dynamic_dca (cfg : Config) (df : DataFrame)
           (weight_fn : DataFrame -> Series)
  : result (list CycleRow * (Metrics * Metrics)) :=
  df_res <- compute_cycle_spd cfg df weight_fn ;;
  Ok (df_res, summarize df_res).

End Evaluator.

(* ================================================================== *)
(** * Sample configurations and frames *)
(* ================================================================== *)

Module Examples.

Import Allocator Evaluator.

Definition D (y m d : Z) : Timestamp := mkTimestamp y m d.

(** The window 2013-01-01 .. 2024-12-31, sensitivity 1.25, floor 1e-4,
    and a redistribution window of two days so that short frames show
    commits. *)
Definition cfg : Config :=
  mkConfig (D 2013 1 1) (D 2024 12 31) (5 # 4) 2 (1 # 10000).

(** Four days at 100, 80, 120, 90: day 2 is below its mean and commits,
    day 4 is below its mean and has no day after it. *)
Definition four_days : DataFrame :=
  [ mkRow (D 2013 1 1) 100 100 None;
    mkRow (D 2013 1 2) 80 90 (Some 10);
    mkRow (D 2013 1 3) 120 100 (Some 20);
    mkRow (D 2013 1 4) 90 (195 # 2) (Some 17) ].

(** Three days: the first dips so deep that its boost would empty the
    window; the second dips mildly. *)
Definition crash : DataFrame :=
  [ mkRow (D 2013 1 1) 10 100 (Some 1);
    mkRow (D 2013 1 2) 99 100 (Some 10);
    mkRow (D 2013 1 3) 100 100 (Some 10) ].

(** Four dates over two cycles, around the boundary 2016 / 2017. *)
Definition two_cycles : DataFrame :=
  [ mkRow (D 2013 1 1) 100 100 None;
    mkRow (D 2016 12 31) 400 300 (Some 100);
    mkRow (D 2017 1 1) 500 350 (Some 150);
    mkRow (D 2020 6 1) 300 400 (Some 120) ].

(** A window of a single day. *)
Definition single_day : DataFrame :=
  [ mkRow (D 2013 1 1) 100 100 None ].


(** A window whose first date is not 1 January. *)
Definition midyear : DataFrame :=
  [ mkRow (D 2013 6 1) 100 100 None;
    mkRow (D 2017 3 1) 200 150 (Some 50) ].

(** A strategy whose series has the first date only. *)
Definition first_day_only (df : DataFrame) : Series :=
  [ (D 2013 1 1, Some 1) ].

(** A strategy with a negative and an undefined weight. *)
Definition ragged (df : DataFrame) : Series :=
  [ (D 2013 1 1, Some (1 # 2)); (D 2013 1 2, Some (- (1 # 4)));
    (D 2013 1 3, None); (D 2013 1 4, Some (1 # 2)) ].

End Examples.

(* ================================================================== *)
(** * Features: [DynamicDCA100MAStrategy.construct_features] *)
(* ================================================================== *)

Module Features.

Import Evaluator.

(** The observations of [rolling(window)] at row [i]: the values of the
    last [window] rows up to and including row [i]. *)
Definition rolling_window (window i : nat) (s : list Q) : list Q :=
  skipn (S i - window) (firstn (S i) s).

(** [df['btc_close'].rolling(window=100, min_periods=1).mean()], the
    [ma100] column, on a column without NaN: the mean of the observations
    of each row, NaN ([None]) where fewer than [min_periods = 1] of them
    are there. *)
Definition ma100_column (btc_close : list Q) : list (option Q) :=
  map (fun i =>
         let obs := rolling_window 100 i btc_close in
         if (1 <=? length obs)%nat then Some (mean obs) else None)
      (seq 0 (length btc_close)).

(** A frame whose [ma100] column is the one [construct_features] writes.
    (The [std100] column is a square root and stays a given.) *)
Definition has_ma100 (df : DataFrame) : Prop :=
  Forall2 (fun r m => match m with
                      | Some v => ma100 r == v
                      | None => False
                      end)
          df (ma100_column (map btc_close df)).

End Features.

(* ================================================================== *)
(** * The listing of the strategies: [list_available_strategies] *)
(* ================================================================== *)

Module Registry.

Import String.StringSyntax Ascii.AsciiSyntax.

Local Open Scope string_scope.
Local Delimit Scope char_scope with char.

(** What [list_strategies()] returns: a dict from name to description
    (a docstring, or [None]), in insertion order. *)
Definition Strategies : Type :=
  list (String.string * option String.string).

Definition newline : String.string :=
  String.String (Ascii.ascii_of_nat 10) String.EmptyString.

(** [any(name.startswith(prefix) for prefix in
    ['dynamic_dca', 'uniform_dca'])]. *)
Definition is_core (name : String.string) : bool :=
  String.prefix "dynamic_dca" name || String.prefix "uniform_dca" name.

Definition dot : Ascii.ascii := "."%char.

(** [description.split('.')[0]]. *)
Fixpoint first_sentence (s : String.string) : String.string :=
  match s with
  | String.EmptyString => String.EmptyString
  | String.String c r =>
      if Ascii.eqb c dot then String.EmptyString
      else String.String c (first_sentence r)
  end.

Definition no_description : String.string := "No description".

(** [description.split('.')[0] if description else 'No description']:
    [None] and the empty string are false. *)
Definition shown (description : option String.string) : String.string :=
  match description with
  | Some (String.String c r) => first_sentence (String.String c r)
  | Some String.EmptyString | None => no_description
  end.

Fixpoint spaces (n : nat) : String.string :=
  match n with
  | O => String.EmptyString
  | S k => String.String " "%char (spaces k)
  end.

(** [f"{name:20}"]: left-aligned in a field of 20, never truncated. *)
Definition pad20 (name : String.string) : String.string :=
  String.append name (spaces (20 - String.length name)).

(** [f"  {name:20}: {...}"]. *)
Definition line (item : String.string * option String.string)
  : String.string :=
  String.append "  "
    (String.append (pad20 (fst item))
       (String.append ": " (shown (snd item)))).

(** [sorted(d.items())] of a dict: its keys are distinct, so the order of
    the tuples is the order of the names. *)
Fixpoint insert_item (e : String.string * option String.string)
         (l : Strategies) : Strategies :=
  match l with
  | [] => [e]
  | x :: r =>
      if String.leb (fst e) (fst x) then e :: l else x :: insert_item e r
  end.

Definition sorted_items (l : Strategies) : Strategies :=
  fold_right insert_item [] l.

(** The strings of the [print] calls around the lines. *)
Definition no_strategies : String.string :=
  String.append newline
    "No strategies available. Please check your installation.".
Definition header : list String.string :=
  [String.append newline "Available Strategies:"; "====================="].
Definition core_title : String.string := "Core Strategies:".
Definition core_rule : String.string := "-----------------".
Definition custom_title : String.string := "Custom Strategies:".
Definition custom_rule : String.string := "------------------".

(** One section of the listing: nothing for an empty dict, else the
    title, the rule and one line per strategy. *)
Definition section (title rule : String.string) (d : Strategies)
  : list String.string :=
  match d with
  | [] => []
  | _ :: _ => [String.append newline title; rule]
              ++ map line (sorted_items d)
  end.

(** [list_available_strategies()], with the dict of [list_strategies()]
    passed in: the strings printed, one per [print], and the value
    returned. *)
Definition list_available_strategies (strategies : Strategies)
  : list String.string * Strategies :=
  match strategies with
  | [] => ([no_strategies], strategies)
  | _ :: _ =>
      let core_strategies :=
        filter (fun e => is_core (fst e)) strategies in
      let custom_strategies :=
        filter (fun e => negb (is_core (fst e))) strategies in
      (header
       ++ section core_title core_rule core_strategies
       ++ section custom_title custom_rule custom_strategies,
       strategies)
  end.

(** A dict of three strategies, one without description. *)
Definition sample_registry : Strategies :=
  [ ("uniform_dca", Some "Uniform DCA. Buys the same amount every day.");
    ("my_strategy", None);
    ("dynamic_dca_100ma", Some "A dynamic DCA strategy") ].

End Registry.

(* ================================================================== *)
(** * Prices in another unit *)
(* ================================================================== *)

Module Units.

(** The row [r] with its price, and with it the trailing mean and
    deviation of the price, expressed in a unit [c] times smaller. *)
Definition rescale (c : Q) (r : Row) : Row :=
  mkRow (date r) (c * btc_close r) (c * ma100 r)
        (option_map (Qmult c) (std100 r)).

End Units.

Module MoreExamples.

Import Examples.

(** Three days of rising prices: no day is below its trailing mean. *)
Definition rising : DataFrame :=
  [ mkRow (D 2013 1 1) 100 100 None;
    mkRow (D 2013 1 2) 110 105 (Some 7);
    mkRow (D 2013 1 3) 130 (340 # 3) (Some 15) ].

(** [four_days] with another last day. *)
Definition four_days_alt : DataFrame :=
  [ mkRow (D 2013 1 1) 100 100 None;
    mkRow (D 2013 1 2) 80 90 (Some 10);
    mkRow (D 2013 1 3) 120 100 (Some 20);
    mkRow (D 2013 1 4) 300 150 (Some 100) ].

(** A frame that ends before the window starts. *)
Definition before_window : DataFrame :=
  [ mkRow (D 2010 7 18) (1 # 20) (1 # 20) None ].

End MoreExamples.

Module DateFacts.

Local Open Scope Z_scope.

Ltac unbool :=
  repeat match goal with
  | H : _ && _ = true |- _ => apply andb_true_iff in H; destruct H
  | H : _ || _ = true |- _ => apply orb_true_iff in H
  | H : _ && _ = false |- _ => apply andb_false_iff in H
  | H : _ || _ = false |- _ => apply orb_false_iff in H; destruct H
  | H : negb _ = true |- _ => apply negb_true_iff in H
  | H : negb _ = false |- _ => apply negb_false_iff in H
  | H : (_ <? _) = true |- _ => apply Z.ltb_lt in H
  | H : (_ <? _) = false |- _ => apply Z.ltb_ge in H
  | H : (_ <=? _) = true |- _ => apply Z.leb_le in H
  | H : (_ <=? _) = false |- _ => apply Z.leb_gt in H
  | H : (_ =? _) = true |- _ => apply Z.eqb_eq in H
  | H : (_ =? _) = false |- _ => apply Z.eqb_neq in H
  end.

(** The lexicographic order, as a proposition over the fields. *)
Definition lt (a b : Timestamp) : Prop :=
  year a < year b \/
  (year a = year b /\
   (month a < month b \/ (month a = month b /\ day a < day b))).

Definition le (a b : Timestamp) : Prop :=
  year a < year b \/
  (year a = year b /\
   (month a < month b \/ (month a = month b /\ day a <= day b))).

Lemma ltb_lt a b : ltb a b = true <-> lt a b.
Proof.
  unfold ltb, lt. split.
  - intros H. unbool. destruct H as [H | H]; unbool; [lia |].
    destruct H0 as [H0 | H0]; unbool; lia.
  - intros H. apply orb_true_iff.
    destruct H as [H | [H1 [H | [H2 H3]]]].
    + left. now apply Z.ltb_lt.
    + right. apply andb_true_iff. split; [now apply Z.eqb_eq |].
      apply orb_true_iff. left. now apply Z.ltb_lt.
    + right. apply andb_true_iff. split; [now apply Z.eqb_eq |].
      apply orb_true_iff. right. apply andb_true_iff.
      split; [now apply Z.eqb_eq | now apply Z.ltb_lt].
Qed.

Lemma eqb_eq a b : eqb a b = true <-> a = b.
Proof.
  unfold eqb. destruct a, b; simpl. split.
  - intros H. unbool. subst. reflexivity.
  - intros H. inversion H. now rewrite !Z.eqb_refl.
Qed.

Lemma leb_le a b : leb a b = true <-> le a b.
Proof.
  unfold leb. rewrite orb_true_iff, ltb_lt, eqb_eq. unfold lt, le.
  split.
  - intros [H | ->]; lia.
  - intros H. destruct a, b; simpl in *.
    destruct (Z.eq_dec day0 day1) as [-> | Hd].
    + destruct H as [H | [H1 [H | [H2 _]]]]; try (left; lia).
      right. subst. reflexivity.
    + left. lia.
Qed.

Lemma leb_false a b : leb a b = false <-> lt b a.
Proof.
  split.
  - intros H. destruct (ltb b a) eqn:E; [now apply ltb_lt |].
    exfalso. assert (~ le a b) by (rewrite <- leb_le; congruence).
    assert (~ lt b a) by (rewrite <- ltb_lt; congruence).
    unfold le, lt in *. lia.
  - intros H. destruct (leb a b) eqn:E; [| reflexivity].
    apply leb_le in E. unfold le, lt in *. lia.
Qed.

Lemma le_refl a : le a a.
Proof. unfold le. lia. Qed.

Lemma le_trans a b c : le a b -> le b c -> le a c.
Proof. unfold le. lia. Qed.


Lemma le_lt_trans a b c : le a b -> lt b c -> lt a c.
Proof. unfold lt, le. lia. Qed.

Lemma lt_le a b : lt a b -> le a b.
Proof. unfold lt, le. lia. Qed.



Lemma min_le_l a b : le (min a b) a.
Proof.
  unfold min. destruct (leb a b) eqn:E.
  - apply le_refl.
  - apply leb_false in E. now apply lt_le.
Qed.

Lemma min_le_r a b : le (min a b) b.
Proof.
  unfold min. destruct (leb a b) eqn:E.
  - now apply leb_le.
  - apply le_refl.
Qed.

Lemma days_in_month_bounds y m : 28 <= days_in_month y m <= 31.
Proof.
  unfold days_in_month.
  destruct (m =? 2); [destruct (is_leap y); lia |].
  destruct ((m =? 4) || (m =? 6) || (m =? 9) || (m =? 11)); lia.
Qed.

Lemma valid_spec d :
  valid d = true <->
  1 <= month d <= 12 /\ 1 <= day d <= days_in_month (year d) (month d).
Proof.
  unfold valid. rewrite !andb_true_iff, !Z.leb_le. tauto.
Qed.


Lemma year_add_years n d : year (add_years n d) = year d + n.
Proof. reflexivity. Qed.


End DateFacts.

(* ================================================================== *)
(** * The cycle partition of the evaluator *)
(* ================================================================== *)

Module PartitionFacts.

Import DateFacts Evaluator.

Local Open Scope Z_scope.

Lemma fold_max_ge (l : list Timestamp) :
  forall d, le d (fold_left max l d) /\
            forall x, In x l -> le x (fold_left max l d).
Proof.
  induction l as [| a l IH]; intros d; simpl.
  - split; [apply le_refl | intros x []].
  - destruct (IH (max d a)) as [H1 H2].
    assert (Hd : le d (max d a)).
    { unfold max. destruct (leb d a) eqn:E;
        [now apply leb_le | apply le_refl]. }
    assert (Ha : le a (max d a)).
    { unfold max. destruct (leb d a) eqn:E; [apply le_refl |].
      apply leb_false in E. now apply lt_le. }
    split.
    + eapply le_trans; eassumption.
    + intros x [-> | Hx]; [eapply le_trans; eassumption | now apply H2].
Qed.

Lemma index_max_ge (l : list Timestamp) hi d :
  index_max l = Some hi -> In d l -> le d hi.
Proof.
  destruct l as [| a l]; simpl; [discriminate |].
  intros [= <-] Hd. destruct (fold_max_ge l a) as [H1 H2].
  destruct Hd as [<- | Hd]; [exact H1 | now apply H2].
Qed.

Lemma fold_min_in (l : list Timestamp) :
  forall d, fold_left min l d = d \/ In (fold_left min l d) l.
Proof.
  induction l as [| a l IH]; intros d; simpl; [now left |].
  destruct (IH (min d a)) as [H | H]; [| now right; right].
  rewrite H. unfold min. destruct (leb d a); [now left | right; now left].
Qed.

Lemma index_min_in (l : list Timestamp) lo :
  index_min l = Some lo -> In lo l.
Proof.
  destruct l as [| a l]; simpl; [discriminate |].
  intros [= <-]. destruct (fold_min_in l a) as [-> | H]; [now left | now right].
Qed.

Lemma fold_min_le (l : list Timestamp) :
  forall d, le (fold_left min l d) d /\
            forall x, In x l -> le (fold_left min l d) x.
Proof.
  induction l as [| a l IH]; intros d; simpl.
  - split; [apply le_refl | intros x []].
  - destruct (IH (min d a)) as [H1 H2]. split.
    + eapply le_trans; [exact H1 | apply min_le_l].
    + intros x [-> | Hx]; [| now apply H2].
      eapply le_trans; [exact H1 | apply min_le_r].
Qed.

Lemma index_min_le (l : list Timestamp) lo d :
  index_min l = Some lo -> In d l -> le lo d.
Proof.
  destruct l as [| a l]; simpl; [discriminate |].
  intros [= <-] Hd. destruct (fold_min_le l a) as [H1 H2].
  destruct Hd as [<- | Hd]; [exact H1 | now apply H2].
Qed.

Lemma le_add_years d : lt d (add_years 4 d).
Proof. unfold lt, add_years; simpl. lia. Qed.

(** The loop returns: fuel above the distance in years is never used up. *)
Lemma cycle_loop_total df hi :
  forall fuel current,
    (Z.to_nat (year hi - year current + 1) < fuel)%nat ->
    exists cs, cycle_loop fuel df hi current = Some cs.
Proof.
  induction fuel as [| fuel IH]; intros current Hf; [lia |].
  simpl. destruct (leb current hi) eqn:E; [| now eexists].
  destruct (filter _ df) as [| r rs]; [now eexists |].
  apply leb_le in E.
  assert (Hy : year current <= year hi) by (unfold le in E; lia).
  destruct (IH (add_years 4 current)) as [cs Hcs].
  { rewrite year_add_years. lia. }
  rewrite Hcs. now eexists.
Qed.

Lemma cycles_loop df lo hi :
  index_min (map date df) = Some lo ->
  index_max (map date df) = Some hi ->
  cycle_loop (loop_fuel lo hi) df hi lo = Some (cycles df).
Proof.
  intros Hlo Hhi. unfold cycles. rewrite Hlo, Hhi.
  destruct (cycle_loop_total df hi (loop_fuel lo hi) lo) as [cs Hcs].
  { unfold loop_fuel. lia. }
  now rewrite Hcs.
Qed.

Section Loop.

Variable df : DataFrame.
Variable hi : Timestamp.

Lemma cycle_loop_step fuel current cs :
  cycle_loop (S fuel) df hi current = Some cs ->
  cs = [] \/
  exists cs',
    le current hi /\
    cs = mkCycle current (min (sub_one_day (add_years 4 current)) hi)
           (filter (in_cycle current
                      (min (sub_one_day (add_years 4 current)) hi)) df)
         :: cs' /\
    cycle_loop fuel df hi (add_years 4 current) = Some cs' /\
    filter (in_cycle current
              (min (sub_one_day (add_years 4 current)) hi)) df <> [].
Proof.
  simpl. destruct (leb current hi) eqn:E; [| intros [= <-]; now left].
  destruct (filter _ df) as [| r rs] eqn:F; [intros [= <-]; now left |].
  destruct (cycle_loop fuel df hi (add_years 4 current)) as [cs' |];
    simpl; [| discriminate].
  intros [= <-]. right. exists cs'. apply leb_le in E.
  repeat split; auto. discriminate.
Qed.

(** No cycle is empty. *)
Lemma cycle_loop_nonempty fuel :
  forall current cs c,
    cycle_loop fuel df hi current = Some cs -> In c cs -> c_rows c <> [].
Proof.
  induction fuel as [| fuel IH]; intros current cs c H Hc; [discriminate |].
  apply cycle_loop_step in H.
  destruct H as [-> | (cs' & _ & -> & H & Hne)]; [destruct Hc |].
  destruct Hc as [<- | Hc]; [exact Hne | eauto].
Qed.

(** Every row of a cycle is a row of the window inside the bounds of the
    cycle, and no cycle starts before [current]. *)
Lemma cycle_loop_rows fuel :
  forall current cs c r,
    cycle_loop fuel df hi current = Some cs ->
    In c cs -> In r (c_rows c) ->
    In r df /\ le current (c_start c) /\
    le (c_start c) (date r) /\ le (date r) (c_end c) /\ le (c_end c) hi.
Proof.
  induction fuel as [| fuel IH]; intros current cs c r H Hc Hr;
    [discriminate |].
  apply cycle_loop_step in H. destruct H as [-> | (cs' & Hle & -> & H & _)];
    [destruct Hc |].
  destruct Hc as [<- | Hc].
  - simpl in *. apply filter_In in Hr. destruct Hr as [Hr Hb].
    unfold in_cycle in Hb. apply andb_true_iff in Hb. destruct Hb as [H1 H2].
    apply leb_le in H1, H2. repeat split; auto using le_refl, min_le_r.
  - destruct (IH _ _ _ _ H Hc Hr) as (H1 & H2 & H3 & H4 & H5).
    repeat split; auto.
    eapply le_trans; [| exact H2]. apply lt_le, le_add_years.
Qed.




End Loop.

End PartitionFacts.

(* ================================================================== *)
(** * The groups of the allocator against the cycles of the evaluator *)
(* ================================================================== *)

Module GroupFacts.

Import DateFacts Evaluator Allocator PartitionFacts.

Local Open Scope Z_scope.

Lemma insert_key_In k ks x : In x (insert_key k ks) <-> x = k \/ In x ks.
Proof.
  induction ks as [| h t IH]; simpl.
  - intuition.
  - destruct (k <? h) eqn:E1; simpl; [intuition |].
    destruct (k =? h) eqn:E2; simpl.
    + apply Z.eqb_eq in E2. subst. intuition.
    + rewrite IH. intuition.
Qed.

Lemma group_keys_In labels x : In x (group_keys labels) <-> In x labels.
Proof.
  induction labels as [| a l IH]; simpl; [tauto |].
  rewrite insert_key_In, IH. intuition.
Qed.

(** The group of a key is the rows of that label, in frame order. *)
Lemma groupby_In label df k g :
  In (k, g) (groupby label df) <->
  In k (map label df) /\ g = filter (fun r => label r =? k) df.
Proof.
  unfold groupby. split.
  - intros H. apply in_map_iff in H. destruct H as (k' & Heq & Hk).
    injection Heq as <- <-. now rewrite group_keys_In in Hk.
  - intros [Hk ->]. apply in_map_iff. exists k. now rewrite group_keys_In.
Qed.

Lemma add_years_jan1 y : add_years 4 (mkTimestamp y 1 1) = mkTimestamp (y + 4) 1 1.
Proof. reflexivity. Qed.

Lemma sub_one_day_jan1 y : sub_one_day (mkTimestamp y 1 1) = mkTimestamp (y - 1) 12 31.
Proof. reflexivity. Qed.

(** From 1 January of year [y0 + 4 n], the slice of the cycle is the set
    of rows whose year lies in the four calendar years from there. *)
Lemma in_cycle_jan1 y0 n hi r :
  valid (date r) = true -> le (date r) hi ->
  in_cycle (mkTimestamp (y0 + 4 * n) 1 1)
           (min (sub_one_day (add_years 4 (mkTimestamp (y0 + 4 * n) 1 1))) hi) r
  = (cycle_label y0 (date r) =? n).
Proof.
  intros Hv Hhi. apply valid_spec in Hv.
  pose proof (days_in_month_bounds (year (date r)) (month (date r))) as Hb.
  rewrite add_years_jan1, sub_one_day_jan1.
  unfold in_cycle, cycle_label.
  destruct ((year (date r) - y0) / 4 =? n) eqn:E.
  - apply Z.eqb_eq in E.
    assert (Hy : y0 + 4 * n <= year (date r) <= y0 + 4 * n + 3).
    { pose proof (Z.div_mod (year (date r) - y0) 4).
      pose proof (Z.mod_pos_bound (year (date r) - y0) 4). lia. }
    apply andb_true_iff. split; apply leb_le.
    + unfold le; cbn [year month day]. lia.
    + unfold min. destruct (leb _ hi); [| assumption].
      unfold le; cbn [year month day]. lia.
  - apply Z.eqb_neq in E. apply andb_false_iff.
    destruct (leb (mkTimestamp (y0 + 4 * n) 1 1) (date r)) eqn:E1;
      [right | now left].
    apply leb_le in E1.
    destruct (leb (date r) _) eqn:E2; [| reflexivity].
    apply leb_le in E2. exfalso. apply E.
    assert (E3 : le (date r) (mkTimestamp (y0 + 4 * n + 4 - 1) 12 31)).
    { eapply le_trans; [exact E2 | apply min_le_l]. }
    unfold le in E1, E3; cbn [year month day] in E1, E3.
    assert (Hy : y0 + 4 * n <= year (date r) <= y0 + 4 * n + 3) by lia.
    symmetry. apply (Z.div_unique _ 4 n (year (date r) - y0 - 4 * n)); lia.
Qed.

Lemma cycle_loop_jan1 df hi y0 :
  Forall (fun r => valid (date r) = true /\ le (date r) hi) df ->
  forall fuel n current cs k c,
    current = mkTimestamp (y0 + 4 * n) 1 1 ->
    cycle_loop fuel df hi current = Some cs ->
    nth_error cs k = Some c ->
    c_rows c =
    filter (fun r => cycle_label y0 (date r) =? n + Z.of_nat k) df.
Proof.
  intros Hdf. rewrite Forall_forall in Hdf.
  induction fuel as [| fuel IH]; intros n current cs k c -> H Hk;
    [discriminate |].
  apply cycle_loop_step in H. destruct H as [-> | (cs' & Hle & -> & H & _)].
  { destruct k; discriminate. }
  destruct k as [| k]; cbn [nth_error] in Hk.
  - pose proof (f_equal (fun o => match o with
                                   | Some x => c_rows x
                                   | None => []
                                   end) Hk) as Hc.
    cbn [c_rows] in Hc. rewrite <- Hc.
    apply filter_ext_in. intros r Hr.
    destruct (Hdf r Hr) as [Hv Hh].
    rewrite (in_cycle_jan1 y0 n hi r Hv Hh). f_equal. lia.
  - rewrite add_years_jan1 in H.
    replace (y0 + 4 * n + 4) with (y0 + 4 * (n + 1)) in H by lia.
    rewrite (IH (n + 1) _ _ _ _ eq_refl H Hk).
    apply filter_ext. intros r. f_equal. lia.
Qed.

End GroupFacts.

(* ================================================================== *)
(** * The redistribution scan of one cycle *)
(* ================================================================== *)

Module ScanFacts.

Import Allocator.

Local Open Scope Q_scope.

Lemma Qltb_lt x y : Qltb x y = true <-> x < y.
Proof.
  unfold Qltb. rewrite negb_true_iff. split.
  - intros H. apply Qnot_le_lt. intros L.
    apply Qle_bool_iff in L. congruence.
  - intros H. destruct (Qle_bool y x) eqn:E; [| reflexivity].
    apply Qle_bool_iff in E. exfalso. apply (Qlt_not_le _ _ H E).
Qed.

Lemma inject_nat_succ n :
  inject_Z (Z.of_nat (S n)) == inject_Z (Z.of_nat n) + 1.
Proof.
  rewrite Nat2Z.inj_succ. unfold Z.succ. now rewrite inject_Z_plus.
Qed.

Lemma inject_nat_pos n : (0 < n)%nat -> 0 < inject_Z (Z.of_nat n).
Proof.
  intros H. change 0 with (inject_Z 0). rewrite <- Zlt_Qlt. lia.
Qed.

Lemma length_upd i v w : length (upd i v w) = length w.
Proof.
  revert i. induction w as [| x r IH]; intros [| i]; simpl; auto.
Qed.

Lemma length_sub_from s red w : length (sub_from s red w) = length w.
Proof.
  revert s. induction w as [| x r IH]; intros [| s]; simpl; auto.
Qed.

Lemma length_mark_from s m : length (mark_from s m) = length m.
Proof.
  revert s. induction m as [| x r IH]; intros [| s]; simpl; auto.
Qed.

Lemma Qsum_upd i v w :
  (i < length w)%nat -> Qsum (upd i v w) == Qsum w - nth i w 0 + v.
Proof.
  revert i. induction w as [| x r IH]; intros [| i] H; simpl in *;
    try lia.
  - ring.
  - rewrite IH by lia. ring.
Qed.

Lemma Qsum_sub_from s red w :
  (s <= length w)%nat ->
  Qsum (sub_from s red w) ==
  Qsum w - inject_Z (Z.of_nat (length w - s)) * red.
Proof.
  revert s. induction w as [| x r IH]; intros [| s] H; simpl in *;
    try lia.
  - ring.
  - specialize (IH O). rewrite Nat.sub_0_r in IH.
    rewrite IH by lia.
    pose proof (inject_nat_succ (length r)) as E. simpl in E.
    rewrite E. ring.
  - rewrite IH by lia. ring.
Qed.

Lemma Qsum_repeat x n : Qsum (repeat x n) == inject_Z (Z.of_nat n) * x.
Proof.
  induction n as [| n IH].
  - simpl. ring.
  - cbn [repeat Qsum]. rewrite IH, inject_nat_succ. ring.
Qed.

Lemma skipn_upd i v w s : (i < s)%nat -> skipn s (upd i v w) = skipn s w.
Proof.
  revert i s. induction w as [| x r IH]; intros [| i] [| s] H; simpl;
    try lia; auto.
  apply IH. lia.
Qed.

Section Group.

Variable cfg : Config.
Variable group : DataFrame.

(** What a commit is: the day qualifies, its window starts after it and
    inside the cycle, every projected weight is at least the floor. *)
Lemma attempt_commit i w start w' :
  attempt cfg group i w = Commit start w' ->
  exists r sd,
    nth_error group i = Some r /\ std100 r = Some sd /\
    btc_close r < ma100 r /\ 0 < sd /\
    (i < start)%nat /\ (start < length group)%nat /\
    let cur := nth i w 0 in
    let boosted :=
      cur * (1 + ALPHA cfg * ((ma100 r - btc_close r) / sd)) in
    let red :=
      (boosted - cur) / inject_Z (Z.of_nat (length group - start)) in
    forallb (fun p => Qle_bool (MIN_WEIGHT cfg) p)
            (map (fun x => x - red) (skipn start w)) = true /\
    w' = sub_from start red (upd i boosted w).
Proof.
  unfold attempt.
  destruct (nth_error group i) as [r |]; [| discriminate].
  destruct (std100 r) as [sd |] eqn:Esd; [| discriminate].
  destruct (Qltb (btc_close r) (ma100 r) && Qltb 0 sd) eqn:Eq;
    [| discriminate].
  apply andb_true_iff in Eq. destruct Eq as [E1 E2].
  apply Qltb_lt in E1, E2.
  destruct (Z.of_nat (length group) <=? _)%Z eqn:Ew; [discriminate |].
  apply Z.leb_gt in Ew.
  destruct (forallb _ _) eqn:Ef; [| discriminate].
  intros [= <- <-]. exists r, sd. repeat split; auto; lia.
Qed.

Lemma body_length i w w' a :
  body cfg group i w = (w', a) -> length w' = length w.
Proof.
  unfold body. destruct (attempt cfg group i w) as [| | s w0 |] eqn:E;
    intros [= <- <-]; auto.
  apply attempt_commit in E.
  destruct E as (r & sd & _ & _ & _ & _ & _ & _ & _ & ->).
  now rewrite length_sub_from, length_upd.
Qed.

(** A step moves weight, it neither creates nor destroys any. *)
Lemma body_sum i w w' a :
  length w = length group ->
  body cfg group i w = (w', a) -> Qsum w' == Qsum w.
Proof.
  intros Hlen. unfold body.
  destruct (attempt cfg group i w) as [| | s w0 |] eqn:E;
    intros [= <- <-]; try reflexivity.
  apply attempt_commit in E.
  destruct E as (r & sd & _ & _ & _ & Hsd & His & Hs & _ & ->).
  rewrite Qsum_sub_from by (rewrite length_upd; lia).
  rewrite Qsum_upd by lia. rewrite length_upd, Hlen.
  assert (Hp : 0 < inject_Z (Z.of_nat (length group - s)))
    by (apply inject_nat_pos; lia).
  field. split; lra.
Qed.

Lemma scan_inactive indices w : scan cfg group indices w false = w.
Proof. destruct indices; reflexivity. Qed.

Lemma scan_length indices :
  forall w a, length (scan cfg group indices w a) = length w.
Proof.
  induction indices as [| i rest IH]; intros w a; simpl; auto.
  destruct a; simpl; auto.
  destruct (body cfg group i w) as [w' a'] eqn:E.
  rewrite IH. eapply body_length; eauto.
Qed.

Lemma scan_sum indices :
  forall w a,
    length w = length group ->
    Qsum (scan cfg group indices w a) == Qsum w.
Proof.
  induction indices as [| i rest IH]; intros w a Hlen; simpl;
    [reflexivity |].
  destruct a; simpl; [| reflexivity].
  destruct (body cfg group i w) as [w' a'] eqn:E.
  rewrite IH by (erewrite body_length; eauto).
  eapply body_sum; eauto.
Qed.

Lemma cycle_weights_length :
  length (cycle_weights cfg group) = length group.
Proof.
  unfold cycle_weights. now rewrite scan_length, repeat_length.
Qed.

Lemma cycle_weights_sum :
  group <> [] -> Qsum (cycle_weights cfg group) == 1.
Proof.
  intros Hne. unfold cycle_weights.
  rewrite scan_sum by apply repeat_length.
  rewrite Qsum_repeat.
  assert (Hp : 0 < inject_Z (Z.of_nat (length group))).
  { apply inject_nat_pos. destruct group; [congruence | simpl; lia]. }
  field. lra.
Qed.

(** ** Non-negativity and the floor *)

Lemma floor_inv_nth w m i : floor_inv cfg w m -> 0 <= nth i w 0.
Proof.
  intros H. revert i. induction H as [| x b w m [Hx _] _ IH]; intros [| i];
    simpl; auto; lra.
Qed.

Lemma floor_inv_marked w m i :
  floor_inv cfg w m -> nth i m false = true -> MIN_WEIGHT cfg <= nth i w 0.
Proof.
  intros H. revert i. induction H as [| x b w m [_ Hb] _ IH]; intros [| i];
    simpl; auto; discriminate.
Qed.

Lemma floor_inv_upd w m i v :
  floor_inv cfg w m -> nth i w 0 <= v -> floor_inv cfg (upd i v w) m.
Proof.
  intros H. revert i.
  induction H as [| x b w m [Hx Hb] Hr IH]; intros [| i] Hv; simpl in *.
  - constructor.
  - constructor.
  - constructor; [| assumption]. split; [lra |].
    intros E. specialize (Hb E). lra.
  - constructor; [split; assumption | now apply IH].
Qed.

Lemma floor_inv_sub_from w m s red :
  0 <= MIN_WEIGHT cfg ->
  floor_inv cfg w m ->
  forallb (fun p => Qle_bool (MIN_WEIGHT cfg) p)
          (map (fun x => x - red) (skipn s w)) = true ->
  floor_inv cfg (sub_from s red w) (mark_from s m).
Proof.
  intros Hmin H. revert s.
  induction H as [| x b w m [Hx Hb] Hr IH]; intros [| s] Hf; simpl in *;
    try constructor.
  - apply andb_true_iff in Hf. destruct Hf as [Hf _].
    apply Qle_bool_iff in Hf. split; [lra | intros _; exact Hf].
  - apply andb_true_iff in Hf. destruct Hf as [_ Hf].
    apply (IH O). destruct w; exact Hf.
  - split; assumption.
  - now apply IH.
Qed.

Lemma floor_inv_repeat x n :
  0 <= x -> floor_inv cfg (repeat x n) (repeat false n).
Proof.
  intros Hx. induction n; simpl; constructor; auto.
  split; [assumption | discriminate].
Qed.

Lemma floor_inv_commit i w m start w' :
  0 <= MIN_WEIGHT cfg -> 0 <= ALPHA cfg ->
  floor_inv cfg w m ->
  attempt cfg group i w = Commit start w' ->
  floor_inv cfg w' (mark_from start m).
Proof.
  intros Hmin Halpha H E. apply attempt_commit in E.
  destruct E as (r & sd & _ & _ & Hp & Hsd & His & _ & Hf & ->).
  cbv zeta in Hf.
  apply floor_inv_sub_from; [assumption | |].
  - apply floor_inv_upd; [assumption |].
    pose proof (floor_inv_nth w m i H) as Hc.
    assert (Hz : 0 < (ma100 r - btc_close r) / sd).
    { apply Qlt_shift_div_l; [assumption | lra]. }
    assert (Haz : 0 <= ALPHA cfg * ((ma100 r - btc_close r) / sd)).
    { apply Qmult_le_0_compat; [assumption | lra]. }
    pose proof (Qmult_le_0_compat _ _ Hc Haz). lra.
  - rewrite skipn_upd by assumption. exact Hf.
Qed.

Lemma scan_marked_fst indices :
  forall w m a,
    fst (scan_marked cfg group indices w m a) = scan cfg group indices w a.
Proof.
  induction indices as [| i rest IH]; intros w m a; simpl; auto.
  destruct a; simpl; auto. unfold body.
  destruct (attempt cfg group i w); apply IH.
Qed.

Lemma scan_marked_inv indices :
  0 <= MIN_WEIGHT cfg -> 0 <= ALPHA cfg ->
  forall w m a,
    floor_inv cfg w m ->
    floor_inv cfg (fst (scan_marked cfg group indices w m a))
              (snd (scan_marked cfg group indices w m a)).
Proof.
  intros Hmin Halpha.
  induction indices as [| i rest IH]; intros w m a H; simpl; auto.
  destruct a; simpl; auto.
  destruct (attempt cfg group i w) eqn:E; try (now apply IH).
  apply IH. eapply floor_inv_commit; eauto.
Qed.

Lemma cycle_weights_floor :
  0 <= MIN_WEIGHT cfg -> 0 <= ALPHA cfg ->
  floor_inv cfg (cycle_weights cfg group) (reduced_days cfg group).
Proof.
  intros Hmin Halpha. unfold cycle_weights, reduced_days.
  rewrite <- (scan_marked_fst _ _ (repeat false (length group))).
  apply scan_marked_inv; auto.
  apply floor_inv_repeat.
  unfold Qdiv. apply Qmult_le_0_compat; [lra |].
  apply Qinv_le_0_compat.
  change 0 with (inject_Z 0). rewrite <- Zle_Qle. lia.
Qed.

Lemma cycle_weights_nonneg :
  0 <= MIN_WEIGHT cfg -> 0 <= ALPHA cfg ->
  forall x, In x (cycle_weights cfg group) -> 0 <= x.
Proof.
  intros Hmin Halpha.
  pose proof (cycle_weights_floor Hmin Halpha) as H.
  induction H as [| x b w m [Hx _] _ IH]; intros y []; subst; auto.
Qed.

End Group.

End ScanFacts.

(* ================================================================== *)
(** * Writing the cycle weights back into the series *)
(* ================================================================== *)

Module SeriesFacts.

Import DateFacts Allocator GroupFacts ScanFacts.

Lemma set_loc_notin k v (s : Series) :
  ~ In k (map fst s) -> set_loc k v s = s.
Proof.
  induction s as [| e s IH]; simpl; intros H; [reflexivity |].
  destruct (eqb (fst e) k) eqn:E.
  - apply eqb_eq in E. exfalso. apply H. now left.
  - f_equal. apply IH. intros Hin. apply H. now right.
Qed.

Lemma loc_assign_cons_notin e idx :
  ~ In (fst e) idx ->
  forall (s : Series) vals,
    loc_assign (e :: s) idx vals = e :: loc_assign s idx vals.
Proof.
  unfold loc_assign.
  induction idx as [| k idx IH]; intros H s vals; [reflexivity |].
  destruct vals as [| v vals]; [reflexivity |]. simpl.
  destruct (eqb (fst e) k) eqn:E.
  - apply eqb_eq in E. exfalso. apply H. now left.
  - apply IH. intros Hin. apply H. now right.
Qed.

Lemma loc_assign_head k x (s : Series) idx v vals :
  ~ In k (map fst s) -> ~ In k idx ->
  loc_assign ((k, x) :: s) (k :: idx) (v :: vals) =
  (k, Some v) :: loc_assign s idx vals.
Proof.
  intros Hs Hi. unfold loc_assign. simpl.
  assert (E : eqb k k = true) by now apply eqb_eq.
  rewrite E. rewrite set_loc_notin by assumption.
  now apply (loc_assign_cons_notin (k, Some v)).
Qed.

Lemma filter_In_sub {A} (p : A -> bool) l x : In x (filter p l) -> In x l.
Proof. intros H. now apply filter_In in H. Qed.

(** Assigning a value list over the labels a predicate selects, on a
    unique index: the selected entries take the values in order, the
    others keep theirs, the index does not change. *)
Lemma loc_assign_filter (p : Timestamp -> bool) :
  forall (s : Series) vals,
    NoDup (map fst s) ->
    length vals = length (filter p (map fst s)) ->
    let s' := loc_assign s (filter p (map fst s)) vals in
    map fst s' = map fst s /\
    filter (fun e => p (fst e)) s' =
      combine (filter p (map fst s)) (map Some vals) /\
    filter (fun e => negb (p (fst e))) s' =
      filter (fun e => negb (p (fst e))) s.
Proof.
  induction s as [| [k x] s IH]; intros vals Hnd Hlen.
  - cbv zeta. unfold loc_assign. simpl. auto.
  - inversion Hnd as [| ? ? Hk Hnd']; subst.
    cbn [map fst filter] in *.
    assert (Hki : ~ In k (filter p (map fst s))).
    { intros H. apply Hk. eapply filter_In_sub; eauto. }
    destruct (p k) eqn:Ep.
    + destruct vals as [| v vals]; [discriminate |].
      simpl in Hlen. injection Hlen as Hlen.
      destruct (IH vals Hnd' Hlen) as (H1 & H2 & H3).
      cbv zeta. rewrite loc_assign_head by assumption.
      cbn [map fst filter combine negb]. rewrite Ep. cbn [negb].
      rewrite H1, H2, H3. auto.
    + destruct (IH vals Hnd' Hlen) as (H1 & H2 & H3).
      cbv zeta. rewrite (loc_assign_cons_notin (k, x)) by assumption.
      cbn [map fst filter]. rewrite Ep. cbn [negb].
      rewrite H1, H2, H3. auto.
Qed.

Lemma map_filter_date (p : Timestamp -> bool) (df : DataFrame) :
  map date (filter (fun r => p (date r)) df) = filter p (map date df).
Proof.
  induction df as [| r df IH]; simpl; [reflexivity |].
  destruct (p (date r)); simpl; now rewrite IH.
Qed.

Lemma filter_filter_imp {A} (p q : A -> bool) l l' :
  (forall x, q x = true -> p x = true) ->
  filter p l = filter p l' -> filter q l = filter q l'.
Proof.
  intros Himp H.
  assert (E : forall m, filter q (filter p m) = filter q m).
  { induction m as [| x m IHm]; simpl; [reflexivity |].
    destruct (p x) eqn:Ep; simpl.
    - destruct (q x); now rewrite IHm.
    - destruct (q x) eqn:Eq; [| assumption].
      apply Himp in Eq. congruence. }
  rewrite <- (E l), <- (E l'). now rewrite H.
Qed.

Lemma insert_key_sorted k ks :
  StronglySorted Z.lt ks -> StronglySorted Z.lt (insert_key k ks).
Proof.
  induction 1 as [| h t Ht IH Hall]; simpl.
  - repeat constructor.
  - destruct (k <? h)%Z eqn:E1.
    + apply Z.ltb_lt in E1. constructor; [now constructor |].
      constructor; [assumption |].
      eapply Forall_impl; [| exact Hall]. intros a Ha. simpl in Ha. lia.
    + destruct (k =? h)%Z eqn:E2; [now constructor |].
      apply Z.ltb_ge in E1. apply Z.eqb_neq in E2.
      constructor; [assumption |].
      apply Forall_forall. intros a Ha. apply insert_key_In in Ha.
      destruct Ha as [-> | Ha]; [lia |].
      rewrite Forall_forall in Hall. now apply Hall.
Qed.

Lemma group_keys_NoDup labels : NoDup (group_keys labels).
Proof.
  assert (H : StronglySorted Z.lt (group_keys labels)).
  { induction labels; simpl; [constructor | now apply insert_key_sorted]. }
  induction H as [| h t Ht IH Hall]; constructor; auto.
  intros Hin. rewrite Forall_forall in Hall. specialize (Hall _ Hin). lia.
Qed.

Section Emit.

Variable cfg : Config.
Variable dfb : DataFrame.
Hypothesis dates_unique : NoDup (map date dfb).

Let label (d : Timestamp) : Z := cycle_label (year (BACKTEST_START cfg)) d.

Lemma emit_groups :
  forall (gs : list (Z * DataFrame)) (s : Series),
    NoDup (map fst gs) ->
    (forall k g, In (k, g) gs ->
                 g = filter (fun r => (label (date r) =? k)%Z) dfb) ->
    map fst s = map date dfb ->
    let out :=
      fold_left
        (fun weights g =>
           loc_assign weights (map date (snd g)) (cycle_weights cfg (snd g)))
        gs s in
    map fst out = map date dfb /\
    (forall k g, In (k, g) gs ->
       filter (fun e => (label (fst e) =? k)%Z) out =
       combine (map date g) (map Some (cycle_weights cfg g))) /\
    (forall k, ~ In k (map fst gs) ->
       filter (fun e => (label (fst e) =? k)%Z) out =
       filter (fun e => (label (fst e) =? k)%Z) s).
Proof.
  induction gs as [| [k0 g0] gs IH]; intros s Hnd Hg Hs.
  - cbv zeta. simpl. repeat split; auto. intros k g [].
  - inversion Hnd as [| ? ? Hk0 Hnd']; subst.
    assert (Hg0 : g0 = filter (fun r => (label (date r) =? k0)%Z) dfb)
      by (apply Hg; now left).
    assert (Hidx : map date g0 =
                   filter (fun d => (label d =? k0)%Z) (map fst s)).
    { rewrite Hs, Hg0.
      apply (map_filter_date (fun d => (label d =? k0)%Z)). }
    destruct (loc_assign_filter (fun d => (label d =? k0)%Z) s
                (cycle_weights cfg g0)) as (H1 & H2 & H3).
    { now rewrite Hs. }
    { rewrite <- Hidx, length_map. apply cycle_weights_length. }
    rewrite <- Hidx in H1, H2, H3.
    set (s1 := loc_assign s (map date g0) (cycle_weights cfg g0)) in *.
    destruct (IH s1 Hnd') as (J1 & J2 & J3).
    { intros k g Hin. apply Hg. now right. }
    { now rewrite H1. }
    cbv zeta. cbn [fold_left snd]. fold s1.
    split; [exact J1 |]. split.
    + intros k g [Heq | Hin].
      * injection Heq as <- <-. rewrite (J3 k0 Hk0). exact H2.
      * now apply J2.
    + intros k Hk. cbn [map fst] in Hk.
      rewrite J3 by (intros Hin; apply Hk; now right).
      apply (filter_filter_imp
               (fun e => negb (label (fst e) =? k0)%Z)); [| exact H3].
      intros e He. apply Z.eqb_eq in He. apply negb_true_iff.
      apply Z.eqb_neq. intros E. apply Hk. left. lia.
Qed.

End Emit.

(** The series [compute_weights] returns: its index is the window, and
    the entries of each cycle are the weights of the scan of that cycle,
    in order. *)
Lemma compute_weights_emit cfg df :
  let dfb := loc_slice df (BACKTEST_START cfg) (BACKTEST_END cfg) in
  let label := fun d => cycle_label (year (BACKTEST_START cfg)) d in
  NoDup (map date dfb) ->
  map fst (compute_weights cfg df) = map date dfb /\
  forall k g,
    In (k, g) (groupby (fun r => label (date r)) dfb) ->
    filter (fun e => (label (fst e) =? k)%Z) (compute_weights cfg df) =
    combine (map date g) (map Some (cycle_weights cfg g)).
Proof.
  intros dfb label Hnd. unfold compute_weights. fold dfb.
  destruct (emit_groups cfg dfb Hnd
              (groupby (fun r => label (date r)) dfb)
              (map (fun r => (date r, None)) dfb)) as (H1 & H2 & _).
  - unfold groupby. rewrite map_map. simpl. rewrite map_id.
    apply group_keys_NoDup.
  - intros k g Hin. apply groupby_In in Hin. tauto.
  - rewrite map_map. reflexivity.
  - split; [exact H1 | exact H2].
Qed.

Lemma In_combine_nth {A B} (l1 : list A) :
  forall (l2 : list B) j a b,
    nth_error l1 j = Some a -> nth_error l2 j = Some b ->
    In (a, b) (combine l1 l2).
Proof.
  induction l1 as [| x l1 IH]; intros [| y l2] [| j] a b H1 H2;
    try discriminate; simpl in *.
  - left. congruence.
  - right. eapply IH; eauto.
Qed.

(** Every entry of the returned series is an entry of its cycle. *)
Lemma compute_weights_entry cfg df e :
  let dfb := loc_slice df (BACKTEST_START cfg) (BACKTEST_END cfg) in
  let label := fun d => cycle_label (year (BACKTEST_START cfg)) d in
  NoDup (map date dfb) ->
  In e (compute_weights cfg df) ->
  exists k g,
    In (k, g) (groupby (fun r => label (date r)) dfb) /\
    In e (combine (map date g) (map Some (cycle_weights cfg g))).
Proof.
  intros dfb label Hnd He.
  destruct (compute_weights_emit cfg df Hnd) as [H1 H2].
  fold dfb in H1. fold label in H2. fold dfb in H2.
  assert (Hd : In (fst e) (map date dfb)).
  { rewrite <- H1. now apply in_map. }
  apply in_map_iff in Hd. destruct Hd as (r & Hr & Hin).
  set (k := label (date r)).
  set (g := filter (fun r' => (label (date r') =? k)%Z) dfb).
  exists k, g.
  assert (Hg : In (k, g) (groupby (fun r => label (date r)) dfb)).
  { apply groupby_In. split; [| reflexivity].
    apply in_map_iff. exists r. split; [reflexivity | assumption]. }
  split; [exact Hg |].
  rewrite <- (H2 k g Hg). apply filter_In. split; [assumption |].
  rewrite <- Hr. apply Z.eqb_refl.
Qed.

End SeriesFacts.

(* ================================================================== *)
(** * The metrics of one cycle *)
(* ================================================================== *)

Module MetricsFacts.

Import DateFacts Evaluator PartitionFacts ScanFacts.

Local Open Scope Q_scope.

Lemma fold_Qmaxb (l : list Q) :
  forall x,
    let m := fold_left Qmaxb l x in
    x <= m /\ (forall y, In y l -> y <= m) /\ (m = x \/ In m l).
Proof.
  induction l as [| a l IH]; intros x; simpl.
  - repeat split; [lra | intros y [] | now left].
  - destruct (IH (Qmaxb x a)) as (H1 & H2 & H3).
    assert (Hx : x <= Qmaxb x a /\ a <= Qmaxb x a /\
                 (Qmaxb x a = x \/ Qmaxb x a = a)).
    { unfold Qmaxb. destruct (Qle_bool x a) eqn:E.
      - apply Qle_bool_iff in E. repeat split; auto; lra.
      - assert (~ x <= a) by (rewrite <- Qle_bool_iff; congruence).
        repeat split; auto; lra. }
    destruct Hx as (Hx1 & Hx2 & Hx3). repeat split.
    + lra.
    + intros y [<- | Hy]; [lra | now apply H2].
    + destruct H3 as [H3 | H3]; [| now right; right].
      rewrite H3. destruct Hx3 as [-> | ->]; [now left | right; now left].
Qed.

Lemma fold_Qminb (l : list Q) :
  forall x,
    let m := fold_left Qminb l x in
    m <= x /\ (forall y, In y l -> m <= y) /\ (m = x \/ In m l).
Proof.
  induction l as [| a l IH]; intros x; simpl.
  - repeat split; [lra | intros y [] | now left].
  - destruct (IH (Qminb x a)) as (H1 & H2 & H3).
    assert (Hx : Qminb x a <= x /\ Qminb x a <= a /\
                 (Qminb x a = x \/ Qminb x a = a)).
    { unfold Qminb. destruct (Qle_bool x a) eqn:E.
      - apply Qle_bool_iff in E. repeat split; auto; lra.
      - assert (~ x <= a) by (rewrite <- Qle_bool_iff; congruence).
        repeat split; auto; lra. }
    destruct Hx as (Hx1 & Hx2 & Hx3). repeat split.
    + lra.
    + intros y [<- | Hy]; [lra | now apply H2].
    + destruct H3 as [H3 | H3]; [| now right; right].
      rewrite H3. destruct Hx3 as [-> | ->]; [now left | right; now left].
Qed.

Lemma np_max_spec l :
  l <> [] -> In (np_max l) l /\ forall y, In y l -> y <= np_max l.
Proof.
  destruct l as [| x l]; [congruence |]. intros _. simpl.
  destruct (fold_Qmaxb l x) as (H1 & H2 & H3). split.
  - destruct H3 as [-> | H3]; auto.
  - intros y [<- | Hy]; auto.
Qed.

Lemma np_min_spec l :
  l <> [] -> In (np_min l) l /\ forall y, In y l -> np_min l <= y.
Proof.
  destruct l as [| x l]; [congruence |]. intros _. simpl.
  destruct (fold_Qminb l x) as (H1 & H2 & H3). split.
  - destruct H3 as [-> | H3]; auto.
  - intros y [<- | Hy]; auto.
Qed.

Lemma sats_pos : 0 < sats.
Proof. reflexivity. Qed.

(** Price up, sats per dollar down. *)
Lemma spd_antitone a b :
  0 < a -> a <= b -> (1 / b) * sats <= (1 / a) * sats.
Proof.
  intros Ha Hab. apply Qmult_le_compat_r; [| apply Qlt_le_weak, sats_pos].
  apply Qle_shift_div_r; [lra |].
  assert (E : 1 / a * b == b / a) by (field; lra).
  rewrite E. apply Qle_shift_div_l; lra.
Qed.

Lemma spd_antitone_strict a b :
  0 < a -> a < b -> (1 / b) * sats < (1 / a) * sats.
Proof.
  intros Ha Hab. apply Qmult_lt_compat_r; [apply sats_pos |].
  apply Qlt_shift_div_r; [lra |].
  assert (E : 1 / a * b == b / a) by (field; lra).
  rewrite E. apply Qlt_shift_div_l; lra.
Qed.

Lemma Qsum_bounds lo hi l :
  (forall x, In x l -> lo <= x <= hi) ->
  inject_Z (Z.of_nat (length l)) * lo <= Qsum l <=
  inject_Z (Z.of_nat (length l)) * hi.
Proof.
  induction l as [| x l IH]; intros H.
  - cbn [length Qsum Z.of_nat]. change (inject_Z 0) with 0. lra.
  - cbn [length Qsum]. rewrite inject_nat_succ.
    destruct IH as [I1 I2]; [intros y Hy; apply H; now right |].
    destruct (H x) as [H1 H2]; [now left |]. lra.
Qed.

Lemma mean_bounds lo hi l :
  l <> [] ->
  (forall x, In x l -> lo <= x <= hi) -> lo <= mean l <= hi.
Proof.
  intros Hne H. destruct (Qsum_bounds lo hi l H) as [H1 H2].
  assert (Hn : 0 < inject_Z (Z.of_nat (length l))).
  { apply inject_nat_pos. destruct l; [congruence | simpl; lia]. }
  unfold mean. split.
  - apply Qle_shift_div_l; [assumption | lra].
  - apply Qle_shift_div_r; [assumption | lra].
Qed.

(** A weighted sum of values between [lo] and [hi], with non-negative
    weights, lies between [lo] and [hi] times the total weight. *)
Lemma weighted_bounds lo hi :
  forall ws vs,
    length ws = length vs ->
    Forall (fun w => 0 <= w) ws ->
    (forall v, In v vs -> lo <= v <= hi) ->
    lo * Qsum ws <= Qsum (map (fun p => fst p * snd p) (combine ws vs))
    <= hi * Qsum ws.
Proof.
  induction ws as [| w ws IH]; intros [| v vs] Hlen Hw Hv;
    try discriminate.
  - simpl. lra.
  - inversion Hw as [| ? ? Hw0 Hw']; subst.
    cbn [combine map Qsum fst snd].
    destruct (IH vs) as [I1 I2]; auto.
    { intros y Hy. apply Hv. now right. }
    destruct (Hv v) as [V1 V2]; [now left |].
    assert (A1 : lo * w <= v * w)
      by (apply Qmult_le_compat_r; assumption).
    assert (A2 : v * w <= hi * w)
      by (apply Qmult_le_compat_r; assumption).
    lra.
Qed.

Lemma mapM_length {A B} (f : A -> result B) :
  forall l bs, mapM f l = Ok bs -> length bs = length l.
Proof.
  induction l as [| a l IH]; intros bs; simpl.
  - now intros [= <-].
  - destruct (f a) as [b | e]; simpl; [| discriminate].
    destruct (mapM f l) as [bs' | e]; simpl; [| discriminate].
    intros [= <-]. simpl. f_equal. now apply IH.
Qed.

Lemma mapM_ok {A B} (f : A -> result B) :
  forall l, (forall a, In a l -> exists b, f a = Ok b) ->
            exists bs, mapM f l = Ok bs.
Proof.
  induction l as [| a l IH]; intros H; simpl; [now eexists |].
  destruct (H a) as [b Hb]; [now left |]. rewrite Hb. simpl.
  destruct IH as [bs Hbs]; [intros x Hx; apply H; now right |].
  rewrite Hbs. simpl. now eexists.
Qed.

Lemma loc1_ok s d : In d (map fst s) -> exists w, loc1 s d = Ok w.
Proof.
  induction s as [| e s IH]; simpl; [intros [] |].
  intros H. destruct (eqb (fst e) d) eqn:E; [now eexists |].
  destruct H as [H | H]; [| now apply IH].
  apply eqb_eq in H. congruence.
Qed.

Section Cycle.

Variable rows : DataFrame.
Hypothesis rows_nonempty : rows <> [].
Hypothesis prices_positive : Forall (fun r => 0 < btc_close r) rows.

Let high : Q := np_max (map btc_close rows).
Let low : Q := np_min (map btc_close rows).
Let inverted : list Q := map (fun r => (1 / btc_close r) * sats) rows.

Lemma prices_nonempty : map btc_close rows <> [].
Proof. destruct rows; [congruence | discriminate]. Qed.

Lemma price_in_range p :
  In p (map btc_close rows) -> 0 < p /\ low <= p <= high.
Proof.
  intros Hp.
  destruct (np_max_spec _ prices_nonempty) as [_ Hmax].
  destruct (np_min_spec _ prices_nonempty) as [_ Hmin].
  repeat split; auto.
  apply in_map_iff in Hp. destruct Hp as (r & <- & Hr).
  rewrite Forall_forall in prices_positive. now apply prices_positive.
Qed.

Lemma low_positive : 0 < low /\ low <= high.
Proof.
  destruct (np_min_spec _ prices_nonempty) as [Hin _].
  destruct (price_in_range _ Hin) as (H1 & _ & H2). fold low in H1, H2.
  split; assumption.
Qed.

(** Every daily efficiency lies between the efficiency at the peak and
    the efficiency at the trough. *)
Lemma inverted_in_range v :
  In v inverted -> (1 / high) * sats <= v <= (1 / low) * sats.
Proof.
  intros Hv. apply in_map_iff in Hv. destruct Hv as (r & <- & Hr).
  destruct (price_in_range (btc_close r)) as (H0 & H1 & H2).
  { now apply in_map. }
  destruct low_positive as [Hl _].
  split; apply spd_antitone; assumption.
Qed.

Lemma uniform_in_range :
  (1 / high) * sats <= mean inverted <= (1 / low) * sats.
Proof.
  apply mean_bounds; [| apply inverted_in_range].
  unfold inverted. destruct rows; [congruence | discriminate].
Qed.

Lemma dynamic_in_range ws :
  length ws = length rows ->
  Forall (fun w => 0 <= w) ws ->
  ((1 / high) * sats) * Qsum ws
  <= Qsum (map (fun p => fst p * snd p) (combine ws inverted))
  <= ((1 / low) * sats) * Qsum ws.
Proof.
  intros Hlen Hw. apply weighted_bounds; auto using inverted_in_range.
  unfold inverted. now rewrite length_map.
Qed.

End Cycle.

(** The row a cycle gets once its weights are read. *)
Lemma cycle_row_ok full_weights c ws :
  loc full_weights (map date (c_rows c)) = Ok ws ->
  let prices := map btc_close (c_rows c) in
  let inverted := map (fun r => (1 / btc_close r) * sats) (c_rows c) in
  let min_spd := (1 / np_max prices) * sats in
  let max_spd := (1 / np_min prices) * sats in
  let uniform_spd := mean inverted in
  let dynamic_spd :=
    Qsum (map (fun p => fst p * snd p) (combine ws inverted)) in
  let uniform_pct :=
    fmul (fdiv (uniform_spd - min_spd) (max_spd - min_spd)) 100 in
  let dynamic_pct :=
    fmul (fdiv (dynamic_spd - min_spd) (max_spd - min_spd)) 100 in
  cycle_row full_weights c =
  Ok (mkCycleRow (year (c_start c), year (c_end c))
        min_spd max_spd uniform_spd dynamic_spd
        uniform_pct dynamic_pct (fsub dynamic_pct uniform_pct)).
Proof.
  intros H. unfold cycle_row. rewrite H. reflexivity.
Qed.

(** A percentile over a positive range is a number between 0 and 100. *)
Lemma pct_in_range x lo hi :
  lo < hi -> lo <= x <= hi ->
  exists u, fmul (fdiv (x - lo) (hi - lo)) 100 = Fin u /\ 0 <= u <= 100.
Proof.
  intros Hr [H1 H2]. unfold fdiv.
  destruct (Qeq_bool (hi - lo) 0) eqn:E.
  - apply Qeq_bool_iff in E. lra.
  - cbn [fmul]. eexists. split; [reflexivity |].
    assert (Hd : 0 <= (x - lo) / (hi - lo) <= 1).
    { split.
      - apply Qle_shift_div_l; lra.
      - apply Qle_shift_div_r; lra. }
    lra.
Qed.

(** A percentile over a zero range is not a number. *)
Lemma pct_degenerate x lo hi :
  hi - lo == 0 ->
  is_finite (fmul (fdiv (x - lo) (hi - lo)) 100) = false /\
  (x - lo == 0 -> fmul (fdiv (x - lo) (hi - lo)) 100 = NaN).
Proof.
  intros Hr. unfold fdiv.
  apply Qeq_bool_iff in Hr. rewrite Hr. split.
  - destruct (Qeq_bool (x - lo) 0); [reflexivity |].
    destruct (Qltb 0 (x - lo)); reflexivity.
  - intros Hx. apply Qeq_bool_iff in Hx. now rewrite Hx.
Qed.

(** ** The first cycle of a non-empty window *)

Lemma fold_max_in (l : list Timestamp) :
  forall d, fold_left max l d = d \/ In (fold_left max l d) l.
Proof.
  induction l as [| a l IH]; intros d; simpl; [now left |].
  destruct (IH (max d a)) as [H | H]; [| now right; right].
  rewrite H. unfold max. destruct (leb d a); [right; now left | now left].
Qed.

Lemma index_max_in (l : list Timestamp) hi :
  index_max l = Some hi -> In hi l.
Proof.
  destruct l as [| a l]; simpl; [discriminate |].
  intros [= <-]. destruct (fold_max_in l a) as [-> | H]; [now left | now right].
Qed.

Lemma sub_one_day_year x : (year x - 1 <= year (sub_one_day x))%Z.
Proof.
  unfold sub_one_day. destruct (1 <? day x)%Z; [simpl; lia |].
  destruct (1 <? month x)%Z; simpl; lia.
Qed.

Lemma cycles_nonempty df : df <> [] -> cycles df <> [].
Proof.
  intros Hne.
  destruct (index_min (map date df)) as [lo |] eqn:Elo;
    [| destruct df; [congruence | discriminate]].
  destruct (index_max (map date df)) as [hi |] eqn:Ehi;
    [| destruct df; [congruence | discriminate]].
  pose proof (cycles_loop df lo hi Elo Ehi) as H.
  unfold loop_fuel in H. cbn [cycle_loop] in H.
  assert (Hle : le lo hi).
  { eapply index_min_le; [exact Elo |]. now apply index_max_in. }
  apply leb_le in Hle. rewrite Hle in H.
  apply index_min_in in Elo. apply in_map_iff in Elo.
  destruct Elo as (r & Hr & Hin).
  destruct (filter _ df) as [| r0 rs] eqn:F.
  - exfalso.
    assert (Hf : In r (filter (in_cycle lo
                  (min (sub_one_day (add_years 4 lo)) hi)) df)).
    { apply filter_In. split; [assumption |].
      unfold in_cycle. rewrite Hr. apply andb_true_iff. split.
      - apply leb_le, le_refl.
      - unfold min.
        destruct (leb (sub_one_day (add_years 4 lo)) hi); [| exact Hle].
        apply leb_le. left.
        pose proof (sub_one_day_year (add_years 4 lo)) as Hy.
        rewrite year_add_years in Hy. lia. }
    rewrite F in Hf. destruct Hf.
  - destruct (cycle_loop _ df hi (add_years 4 lo)); [| discriminate].
    simpl in H. injection H as <-. discriminate.
Qed.

End MetricsFacts.

(* ================================================================== *)
(** * The reductions of a column *)
(* ================================================================== *)

Module ReducerFacts.

Import Evaluator.

Local Open Scope Q_scope.

Lemma dropna_finite l :
  Forall (fun x => is_finite x = true) l -> dropna l = l.
Proof.
  induction 1 as [| x l Hx _ IH]; [reflexivity |].
  unfold dropna in *. simpl. destruct x; try discriminate.
  simpl. now rewrite IH.
Qed.

Lemma fold_pick_finite (f : fval -> fval -> fval) :
  (forall a b, f a b = a \/ f a b = b) ->
  forall l x,
    is_finite x = true -> Forall (fun y => is_finite y = true) l ->
    is_finite (fold_left f l x) = true.
Proof.
  intros Hf. induction l as [| a l IH]; intros x Hx Hl; simpl; auto.
  inversion Hl; subst. apply IH; auto.
  destruct (Hf x a) as [-> | ->]; assumption.
Qed.

Lemma fminb_pick a b : fminb a b = a \/ fminb a b = b.
Proof. unfold fminb. destruct (fleb a b); auto. Qed.

Lemma fmaxb_pick a b : fmaxb a b = a \/ fmaxb a b = b.
Proof. unfold fmaxb. destruct (fleb a b); auto. Qed.

Lemma fsum_finite l :
  forall acc,
    is_finite acc = true -> Forall (fun y => is_finite y = true) l ->
    is_finite (fold_left fadd l acc) = true.
Proof.
  induction l as [| a l IH]; intros acc Ha Hl; simpl; auto.
  inversion Hl; subst. apply IH; auto.
  destruct acc, a; try discriminate. reflexivity.
Qed.

Lemma fmul_finite x c : is_finite x = true -> is_finite (fmul x c) = true.
Proof. destruct x; try discriminate. reflexivity. Qed.

Lemma insert_sorted_finite x l :
  is_finite x = true -> Forall (fun y => is_finite y = true) l ->
  Forall (fun y => is_finite y = true) (insert_sorted x l).
Proof.
  intros Hx. induction 1 as [| a l Ha Hl IH]; simpl.
  - now repeat constructor.
  - destruct (fleb x a); repeat constructor; auto.
Qed.

Lemma insert_sorted_length x l :
  length (insert_sorted x l) = S (length l).
Proof.
  induction l as [| a l IH]; simpl; [reflexivity |].
  destruct (fleb x a); simpl; auto.
Qed.

Lemma sort_finite l :
  Forall (fun y => is_finite y = true) l ->
  Forall (fun y => is_finite y = true) (sort l).
Proof.
  induction 1; simpl; [constructor | now apply insert_sorted_finite].
Qed.

Lemma sort_length l : length (sort l) = length l.
Proof.
  induction l as [| a l IH]; simpl; [reflexivity |].
  now rewrite insert_sorted_length, IH.
Qed.

Lemma nth_finite l i :
  Forall (fun y => is_finite y = true) l -> (i < length l)%nat ->
  is_finite (nth i l NaN) = true.
Proof.
  intros H. revert i. induction H as [| a l Ha Hl IH]; intros [| i] Hi;
    simpl in *; try lia; auto.
  apply IH. lia.
Qed.

(** The four statistics of a non-empty column of finite values are
    finite values. *)
Lemma metrics_of_finite l :
  l <> [] -> Forall (fun y => is_finite y = true) l ->
  is_finite (m_min (metrics_of l)) = true /\
  is_finite (m_max (metrics_of l)) = true /\
  is_finite (m_mean (metrics_of l)) = true /\
  is_finite (m_median (metrics_of l)) = true.
Proof.
  intros Hne Hl. unfold metrics_of. cbn [m_min m_max m_mean m_median].
  unfold series_min, series_max, series_mean, series_median.
  rewrite (dropna_finite l Hl).
  destruct l as [| x r]; [congruence |].
  inversion Hl as [| ? ? Hx Hr]; subst.
  repeat split.
  - apply fold_pick_finite; auto using fminb_pick.
  - apply fold_pick_finite; auto using fmaxb_pick.
  - apply fmul_finite. unfold fsum. now apply fsum_finite.
  - pose proof (sort_finite (x :: r) Hl) as Hs.
    pose proof (sort_length (x :: r)) as Hn.
    set (s := sort (x :: r)) in *. simpl length in Hn.
    assert (Hlt : (length s / 2 < length s)%nat)
      by (apply Nat.div_lt; lia).
    destruct (Nat.even (length s)).
    + apply fmul_finite.
      assert (H1 : is_finite (nth (length s / 2 - 1) s NaN) = true)
        by (apply nth_finite; auto; lia).
      assert (H2 : is_finite (nth (length s / 2) s NaN) = true)
        by (apply nth_finite; auto).
      destruct (nth (length s / 2 - 1) s NaN), (nth (length s / 2) s NaN);
        try discriminate. reflexivity.
    + now apply nth_finite.
Qed.

End ReducerFacts.

(* ================================================================== *)
(** * The properties of the specification *)
(* ================================================================== *)

Import DateFacts Allocator Evaluator.
Import PartitionFacts GroupFacts ScanFacts SeriesFacts MetricsFacts.
Import ReducerFacts Examples.

Local Open Scope Q_scope.

(** ** The scenarios of the specification, evaluated *)

(** Day 2 of [four_days] (z = 1) is boosted to 0.25 * 2.25 and the two
    days of the window give 0.3125 / 2 each; day 4 has no window. *)
Example four_days_weights :
  cycle_weights cfg four_days = [1 # 4; 90 # 160; 480 # 5120; 480 # 5120].
Proof. vm_compute. reflexivity. Qed.

Example four_days_reduced :
  reduced_days cfg four_days = [false; false; true; true].
Proof. vm_compute. reflexivity. Qed.

(** The rejection at day 1 of [crash] leaves day 2 without its boost;
    from day 2 on with the strategy active, day 2 is boosted. *)
Example crash_halts :
  cycle_weights cfg crash = [1 # 3; 1 # 3; 1 # 3] /\
  scan cfg crash [1; 2]%nat [1 # 3; 1 # 3; 1 # 3] true
  <> [1 # 3; 1 # 3; 1 # 3].
Proof. split; vm_compute; [reflexivity | discriminate]. Qed.

(** An empty window: the loop forms no cycle and [set_index] raises. *)
Example empty_window :
  compute_cycle_spd cfg [] (compute_weights cfg) = Err KeyError.
Proof. reflexivity. Qed.

(** 29 February plus four years, and the day before 1 March. *)
Example leap_day_offsets :
  add_years 4 (D 2096 2 29) = D 2100 2 28 /\
  add_years 4 (D 2012 2 29) = D 2016 2 29 /\
  sub_one_day (D 2100 3 1) = D 2100 2 28 /\
  sub_one_day (D 2016 3 1) = D 2016 2 29 /\
  sub_one_day (D 2017 1 1) = D 2016 12 31.
Proof. repeat split. Qed.

(** C1, as the specification states it, fails: on a window of a single
    day (high = low) [compute_cycle_spd] returns a table of one row, and
    the percentile fields of that row are NaN. *)
Lemma C1_single_day_counterexample :
  exists row,
    compute_cycle_spd cfg single_day (compute_weights cfg) = Ok [row] /\
    min_spd row == max_spd row /\
    uniform_pct row = NaN /\ dynamic_pct row = NaN.
Proof.
  eexists. split; [vm_compute; reflexivity |].
  repeat split.
Qed.

(** C1, amended: for a cycle of positive prices whose highest and lowest
    price are equal, the evaluator raises nothing: the cycle gets a row
    as soon as its weights are read, and [uniform_pct], [dynamic_pct] and
    [excess_pct] of that row are each NaN or an infinity, never a finite
    number; in a cycle of a single day [uniform_pct] and [excess_pct]
    are NaN. *)
Theorem C1_degenerate_cycle_row full_weights c ws :
  c_rows c <> [] ->
  Forall (fun r => 0 < btc_close r) (c_rows c) ->
  np_max (map btc_close (c_rows c)) == np_min (map btc_close (c_rows c)) ->
  loc full_weights (map date (c_rows c)) = Ok ws ->
  exists row,
    cycle_row full_weights c = Ok row /\
    is_finite (uniform_pct row) = false /\
    is_finite (dynamic_pct row) = false /\
    is_finite (excess_pct row) = false /\
    (length (c_rows c) = 1%nat ->
     uniform_pct row = NaN /\ excess_pct row = NaN).
Proof.
  intros Hne Hpos Heq Hloc.
  rewrite (cycle_row_ok full_weights c ws Hloc). eexists.
  split; [reflexivity |]. cbn [uniform_pct dynamic_pct excess_pct].
  set (hi := np_max (map btc_close (c_rows c))) in *.
  set (lo := np_min (map btc_close (c_rows c))) in *.
  destruct (low_positive (c_rows c) Hne Hpos) as [Hlo _]. fold lo in Hlo.
  assert (Hrange : 1 / lo * sats - 1 / hi * sats == 0).
  { rewrite Heq. ring. }
  pose proof (uniform_in_range (c_rows c) Hne Hpos) as [U1 U2].
  fold hi in U1. fold lo in U2.
  set (u := mean _) in *.
  destruct (pct_degenerate u _ _ Hrange) as [Hu Hu0].
  destruct (pct_degenerate
              (Qsum (map (fun p => fst p * snd p)
                 (combine ws (map (fun r => 1 / btc_close r * sats)
                                  (c_rows c)))))
              _ _ Hrange) as [Hd _].
  assert (Hnan : fmul (fdiv (u - 1 / hi * sats)
                        (1 / lo * sats - 1 / hi * sats)) 100 = NaN)
    by (apply Hu0; lra).
  split; [exact Hu |]. split; [exact Hd |].
  assert (Hex : forall x, fsub x NaN = NaN).
  { intros x. unfold fsub. cbn [fopp]. destruct x; reflexivity. }
  rewrite Hnan, Hex. split; [reflexivity |]. intros _. now split.
Qed.

Lemma C1_degenerate_cycle_row_witness :
  exists row,
    cycle_row [(D 2013 1 1, 1)]
              (mkCycle (D 2013 1 1) (D 2013 1 1) single_day) = Ok row /\
    is_finite (uniform_pct row) = false /\
    is_finite (dynamic_pct row) = false /\
    is_finite (excess_pct row) = false /\
    (length single_day = 1%nat ->
     uniform_pct row = NaN /\ excess_pct row = NaN).
Proof.
  apply (C1_degenerate_cycle_row
           [(D 2013 1 1, 1)]
           (mkCycle (D 2013 1 1) (D 2013 1 1) single_day) [1]).
  - discriminate.
  - repeat constructor.
  - reflexivity.
  - reflexivity.
Defined.

(** C2, as the specification states it, fails: in a window that starts
    on 2013-06-01 the evaluator puts 2013-06-01 and 2017-03-01 in one
    cycle, and the allocator puts them in two groups. *)
Lemma C2_midyear_counterexample :
  let dfb := loc_slice midyear (BACKTEST_START cfg) (BACKTEST_END cfg) in
  let label :=
    fun r => cycle_label (year (BACKTEST_START cfg)) (date r) in
  exists c r1 r2,
    In c (cycles dfb) /\ In r1 (c_rows c) /\ In r2 (c_rows c) /\
    label r1 <> label r2 /\
    length (cycles dfb) = 1%nat /\ length (groupby label dfb) = 2%nat.
Proof.
  eexists. exists (mkRow (D 2013 6 1) 100 100 None).
  exists (mkRow (D 2017 3 1) 200 150 (Some 50)).
  split; [vm_compute; left; reflexivity |].
  split; [vm_compute; left; reflexivity |].
  split; [vm_compute; right; left; reflexivity |].
  split; [vm_compute; discriminate |].
  split; reflexivity.
Qed.

(** C2, amended: when the first date of the window is 1 January of the
    year of BACKTEST_START, the rows of the k-th cycle of the evaluator
    are the rows of the allocator's group of label k, so both components
    assign every day of that cycle to the same cycle. *)
Theorem C2_cycles_are_groups (conf : Config) (df : DataFrame) :
  let dfb := loc_slice df (BACKTEST_START conf) (BACKTEST_END conf) in
  let label :=
    fun r => cycle_label (year (BACKTEST_START conf)) (date r) in
  Forall (fun r => valid (date r) = true) dfb ->
  index_min (map date dfb) =
    Some (mkTimestamp (year (BACKTEST_START conf)) 1 1) ->
  forall k c,
    nth_error (cycles dfb) k = Some c ->
    c_rows c = filter (fun r => (label r =? Z.of_nat k)%Z) dfb /\
    In (Z.of_nat k, c_rows c) (groupby label dfb).
Proof.
  intros dfb label Hvalid Hlo k c Hk.
  destruct (index_max (map date dfb)) as [hi |] eqn:Ehi;
    [| destruct dfb; discriminate].
  pose proof (cycles_loop dfb _ hi Hlo Ehi) as Hloop.
  assert (Hdf : Forall (fun r => valid (date r) = true /\ le (date r) hi) dfb).
  { rewrite Forall_forall in *. intros r Hr. split; [now apply Hvalid |].
    eapply index_max_ge; [exact Ehi | now apply in_map]. }
  assert (Hrows :
            c_rows c = filter (fun r => (label r =? Z.of_nat k)%Z) dfb).
  { change (Z.of_nat k) with (0 + Z.of_nat k)%Z.
    eapply (cycle_loop_jan1 dfb hi (year (BACKTEST_START conf)) Hdf);
      [| exact Hloop | exact Hk].
    f_equal. lia. }
  split; [exact Hrows |].
  apply groupby_In. split; [| exact Hrows].
  apply nth_error_In in Hk.
  pose proof (cycle_loop_nonempty dfb hi _ _ _ c Hloop Hk) as Hne.
  destruct (c_rows c) as [| r rs] eqn:Ec; [congruence |].
  assert (Hr : In r (filter (fun r => (label r =? Z.of_nat k)%Z) dfb))
    by (rewrite <- Hrows; now left).
  apply filter_In in Hr. destruct Hr as [Hr Hl]. apply Z.eqb_eq in Hl.
  apply in_map_iff. exists r. split; assumption.
Qed.

Lemma C2_cycles_are_groups_witness :
  let dfb := loc_slice two_cycles (BACKTEST_START cfg) (BACKTEST_END cfg) in
  let label :=
    fun r => cycle_label (year (BACKTEST_START cfg)) (date r) in
  length (cycles dfb) = 2%nat /\
  (forall k c,
     nth_error (cycles dfb) k = Some c ->
     c_rows c = filter (fun r => (label r =? Z.of_nat k)%Z) dfb /\
     In (Z.of_nat k, c_rows c) (groupby label dfb)).
Proof.
  split; [reflexivity |].
  apply (C2_cycles_are_groups cfg two_cycles).
  - repeat constructor.
  - reflexivity.
Defined.

(** C3: in the scan of one cycle, at a day that is due a boost (price
    below its mean, positive deviation): when the redistribution window
    is empty the day is skipped, the weights are unchanged and the scan
    goes on over the remaining days with the strategy still active; when
    the window is not empty and one projected weight falls below
    MIN_WEIGHT, the scan ends there and the cycle keeps the weights it
    has, whatever the remaining days are. *)
Theorem C3_skip_continues_reject_halts
        (conf : Config) (group : DataFrame) (i : nat) (rest : list nat)
        (w : list Q) (r : Row) (sd : Q) :
  nth_error group i = Some r -> std100 r = Some sd ->
  btc_close r < ma100 r -> 0 < sd ->
  let N := Z.of_nat (length group) in
  let start := Z.max (N - REBALANCE_WINDOW conf) (Z.of_nat i + 1) in
  let cur := nth i w 0 in
  let excess :=
    cur * (1 + ALPHA conf * ((ma100 r - btc_close r) / sd)) - cur in
  let reduction :=
    excess / inject_Z (Z.of_nat (length group - Z.to_nat start)) in
  ((N <= start)%Z ->
   body conf group i w = (w, true) /\
   scan conf group (i :: rest) w true = scan conf group rest w true) /\
  ((start < N)%Z ->
   (exists x, In x (skipn (Z.to_nat start) w) /\
              x - reduction < MIN_WEIGHT conf) ->
   body conf group i w = (w, false) /\
   scan conf group (i :: rest) w true = w).
Proof.
  intros Hr Hsd Hp Hpos N start cur excess reduction.
  assert (Hq : Qltb (btc_close r) (ma100 r) && Qltb 0 sd = true).
  { apply andb_true_iff. split; now apply Qltb_lt. }
  split.
  - intros Hempty.
    assert (Hb : body conf group i w = (w, true)).
    { unfold body, attempt. rewrite Hr, Hsd, Hq.
      fold N. fold start. apply Z.leb_le in Hempty. now rewrite Hempty. }
    split; [exact Hb |]. cbn [scan negb]. now rewrite Hb.
  - intros Hwin (x & Hx & Hlow).
    assert (Hb : body conf group i w = (w, false)).
    { unfold body, attempt. rewrite Hr, Hsd, Hq.
      fold N. fold start. apply Z.leb_gt in Hwin. rewrite Hwin.
      fold cur. fold excess. fold reduction.
      destruct (forallb _ _) eqn:Ef; [| reflexivity].
      exfalso. rewrite forallb_forall in Ef.
      specialize (Ef (x - reduction)).
      assert (Hin : In (x - reduction)
                       (map (fun w0 => w0 - reduction)
                            (skipn (Z.to_nat start) w)))
        by (apply in_map_iff; now exists x).
      apply Ef in Hin. apply Qle_bool_iff in Hin.
      apply (Qlt_not_le _ _ Hlow Hin). }
    split; [exact Hb |]. cbn [scan negb]. rewrite Hb.
    apply scan_inactive.
Qed.

Lemma C3_skip_continues_reject_halts_witness :
  (body cfg four_days 3 [1 # 4; 9 # 16; 3 # 32; 3 # 32]
   = ([1 # 4; 9 # 16; 3 # 32; 3 # 32], true) /\
   scan cfg four_days [3%nat] [1 # 4; 9 # 16; 3 # 32; 3 # 32] true
   = scan cfg four_days [] [1 # 4; 9 # 16; 3 # 32; 3 # 32] true) /\
  (body cfg crash 0 [1 # 3; 1 # 3; 1 # 3]
   = ([1 # 3; 1 # 3; 1 # 3], false) /\
   scan cfg crash [0; 1; 2]%nat [1 # 3; 1 # 3; 1 # 3] true
   = [1 # 3; 1 # 3; 1 # 3]).
Proof.
  split.
  - apply (C3_skip_continues_reject_halts
             cfg four_days 3 [] [1 # 4; 9 # 16; 3 # 32; 3 # 32]
             (mkRow (D 2013 1 4) 90 (195 # 2) (Some 17)) 17);
      reflexivity.
  - apply (C3_skip_continues_reject_halts
             cfg crash 0 [1; 2]%nat [1 # 3; 1 # 3; 1 # 3]
             (mkRow (D 2013 1 1) 10 100 (Some 1)) 1);
      try reflexivity.
    exists (1 # 3). split; [now left | reflexivity].
Defined.

(** C4: for every cycle (every group of the allocator), the weights of
    the cycle sum to exactly 1, whether or not a boost was rejected; and
    on a frame of distinct dates the entries that [compute_weights]
    returns for the dates of the cycle are these weights, in order. *)
Theorem C4_cycle_weights_sum_to_one (conf : Config) (df : DataFrame) :
  let dfb := loc_slice df (BACKTEST_START conf) (BACKTEST_END conf) in
  let label := fun d => cycle_label (year (BACKTEST_START conf)) d in
  forall k g,
    In (k, g) (groupby (fun r => label (date r)) dfb) ->
    Qsum (cycle_weights conf g) == 1 /\
    (NoDup (map date dfb) ->
     filter (fun e => (label (fst e) =? k)%Z) (compute_weights conf df) =
     combine (map date g) (map Some (cycle_weights conf g))).
Proof.
  intros dfb label k g Hg. split.
  - apply cycle_weights_sum.
    apply groupby_In in Hg. destruct Hg as [Hk ->].
    apply in_map_iff in Hk. destruct Hk as (r & Hl & Hr).
    intros Hnil.
    assert (Hin : In r (filter (fun r0 => (label (date r0) =? k)%Z) dfb)).
    { apply filter_In. split; [assumption | now apply Z.eqb_eq]. }
    rewrite Hnil in Hin. destruct Hin.
  - intros Hnd.
    destruct (compute_weights_emit conf df Hnd) as [_ H]. now apply H.
Qed.

Lemma C4_cycle_weights_sum_to_one_witness :
  Qsum (cycle_weights cfg four_days) == 1 /\
  (NoDup (map date (loc_slice four_days (BACKTEST_START cfg)
                              (BACKTEST_END cfg))) ->
   filter (fun e => (cycle_label (year (BACKTEST_START cfg)) (fst e)
                     =? 0)%Z)
          (compute_weights cfg four_days) =
   combine (map date four_days)
           (map Some (cycle_weights cfg four_days))).
Proof.
  apply (C4_cycle_weights_sum_to_one cfg four_days 0%Z four_days).
  vm_compute. left. reflexivity.
Defined.

(** C5: when MIN_WEIGHT and the sensitivity are not negative, no weight
    that [compute_weights] returns is negative, and a day that was in the
    window of a committed redistribution ends its cycle with a weight of
    at least MIN_WEIGHT, which is the weight returned for its date. *)
Theorem C5_weights_nonneg_and_floor (conf : Config) (df : DataFrame) :
  0 <= MIN_WEIGHT conf -> 0 <= ALPHA conf ->
  let dfb := loc_slice df (BACKTEST_START conf) (BACKTEST_END conf) in
  let label := fun d => cycle_label (year (BACKTEST_START conf)) d in
  NoDup (map date dfb) ->
  (forall d q, In (d, Some q) (compute_weights conf df) -> 0 <= q) /\
  (forall k g j r,
     In (k, g) (groupby (fun r => label (date r)) dfb) ->
     nth_error g j = Some r ->
     nth j (reduced_days conf g) false = true ->
     In (date r, Some (nth j (cycle_weights conf g) 0))
        (compute_weights conf df) /\
     MIN_WEIGHT conf <= nth j (cycle_weights conf g) 0).
Proof.
  intros Hmin Halpha dfb label Hnd. split.
  - intros d q Hin.
    destruct (compute_weights_entry conf df _ Hnd Hin) as (k & g & _ & He).
    apply in_combine_r in He. apply in_map_iff in He.
    destruct He as (x & [= <-] & Hx).
    eapply cycle_weights_nonneg; eauto.
  - intros k g j r Hg Hr Hmark. split.
    + destruct (compute_weights_emit conf df Hnd) as [_ H].
      specialize (H k g Hg).
      assert (Hin : In (date r, Some (nth j (cycle_weights conf g) 0))
                       (combine (map date g)
                                (map Some (cycle_weights conf g)))).
      { apply In_combine_nth with (j := j).
        - now apply map_nth_error.
        - apply map_nth_error. apply nth_error_nth'.
          rewrite cycle_weights_length.
          apply nth_error_Some. congruence. }
      rewrite <- H in Hin. now apply filter_In in Hin.
    + eapply floor_inv_marked; [| exact Hmark].
      now apply cycle_weights_floor.
Qed.

Lemma four_days_unique :
  NoDup (map date (loc_slice four_days (BACKTEST_START cfg)
                             (BACKTEST_END cfg))).
Proof.
  vm_compute. repeat constructor; simpl; intuition discriminate.
Qed.

Lemma C5_weights_nonneg_and_floor_witness :
  (forall d q, In (d, Some q) (compute_weights cfg four_days) -> 0 <= q) /\
  (forall k g j r,
     In (k, g)
        (groupby (fun r => cycle_label (year (BACKTEST_START cfg)) (date r))
                 (loc_slice four_days (BACKTEST_START cfg)
                            (BACKTEST_END cfg))) ->
     nth_error g j = Some r ->
     nth j (reduced_days cfg g) false = true ->
     In (date r, Some (nth j (cycle_weights cfg g) 0))
        (compute_weights cfg four_days) /\
     MIN_WEIGHT cfg <= nth j (cycle_weights cfg g) 0).
Proof.
  apply (C5_weights_nonneg_and_floor cfg four_days).
  - vm_compute. discriminate.
  - vm_compute. discriminate.
  - exact four_days_unique.
Defined.

(** C10: on a frame of distinct dates, the series that [compute_weights]
    returns is indexed by exactly the dates of the frame inside the
    window BACKTEST_START .. BACKTEST_END, in order, and every entry of
    it is a number: no date is left at NaN. *)
Theorem C10_weights_cover_window (conf : Config) (df : DataFrame) :
  let dfb := loc_slice df (BACKTEST_START conf) (BACKTEST_END conf) in
  NoDup (map date dfb) ->
  map fst (compute_weights conf df) = map date dfb /\
  forall e, In e (compute_weights conf df) -> exists q, snd e = Some q.
Proof.
  intros dfb Hnd. split.
  - now destruct (compute_weights_emit conf df Hnd) as [H _].
  - intros e Hin.
    destruct (compute_weights_entry conf df _ Hnd Hin) as (k & g & _ & He).
    destruct e as [d v]. apply in_combine_r in He. apply in_map_iff in He.
    destruct He as (x & <- & _). now exists x.
Qed.

Lemma C10_weights_cover_window_witness :
  map fst (compute_weights cfg four_days) =
    map date (loc_slice four_days (BACKTEST_START cfg) (BACKTEST_END cfg)) /\
  forall e, In e (compute_weights cfg four_days) -> exists q, snd e = Some q.
Proof.
  apply (C10_weights_cover_window cfg four_days). exact four_days_unique.
Defined.

(** C6: for a cycle of positive prices whose weights are read without
    error, are not negative and sum to 1, the row of the cycle has
    min_spd <= uniform_spd <= max_spd and
    min_spd <= dynamic_spd <= max_spd, and when the highest price is
    above the lowest, uniform_pct and dynamic_pct are numbers between 0
    and 100. *)
Theorem C6_spd_and_pct_bounds full_weights c ws :
  c_rows c <> [] ->
  Forall (fun r => 0 < btc_close r) (c_rows c) ->
  loc full_weights (map date (c_rows c)) = Ok ws ->
  Forall (fun w => 0 <= w) ws ->
  Qsum ws == 1 ->
  exists row,
    cycle_row full_weights c = Ok row /\
    min_spd row <= uniform_spd row <= max_spd row /\
    min_spd row <= dynamic_spd row <= max_spd row /\
    (np_min (map btc_close (c_rows c)) < np_max (map btc_close (c_rows c)) ->
     exists u d,
       uniform_pct row = Fin u /\ dynamic_pct row = Fin d /\
       0 <= u <= 100 /\ 0 <= d <= 100).
Proof.
  intros Hne Hpos Hloc Hw Hsum.
  rewrite (cycle_row_ok full_weights c ws Hloc). eexists.
  split; [reflexivity |].
  cbn [min_spd max_spd uniform_spd dynamic_spd uniform_pct dynamic_pct].
  pose proof (uniform_in_range (c_rows c) Hne Hpos) as HU.
  assert (Hlen : length ws = length (c_rows c)).
  { unfold loc in Hloc. apply mapM_length in Hloc.
    now rewrite length_map in Hloc. }
  pose proof (dynamic_in_range (c_rows c) Hne Hpos ws Hlen Hw) as HD.
  rewrite Hsum, !Qmult_1_r in HD.
  split; [exact HU |]. split; [exact HD |].
  intros Hlt.
  destruct (low_positive (c_rows c) Hne Hpos) as [Hlo _].
  pose proof (spd_antitone_strict _ _ Hlo Hlt) as Hrange.
  destruct (pct_in_range _ _ _ Hrange HU) as (u & Eu & Hu).
  destruct (pct_in_range _ _ _ Hrange HD) as (d & Ed & Hd).
  exists u, d. repeat split; tauto.
Qed.

Lemma C6_spd_and_pct_bounds_witness :
  exists row,
    cycle_row (clip_lower (fillna (compute_weights cfg four_days)))
              (mkCycle (D 2013 1 1) (D 2013 1 4) four_days) = Ok row /\
    min_spd row <= uniform_spd row <= max_spd row /\
    min_spd row <= dynamic_spd row <= max_spd row /\
    (np_min (map btc_close four_days) < np_max (map btc_close four_days) ->
     exists u d,
       uniform_pct row = Fin u /\ dynamic_pct row = Fin d /\
       0 <= u <= 100 /\ 0 <= d <= 100).
Proof.
  apply (C6_spd_and_pct_bounds
           (clip_lower (fillna (compute_weights cfg four_days)))
           (mkCycle (D 2013 1 1) (D 2013 1 4) four_days)
           [1 # 4; 90 # 160; 480 # 5120; 480 # 5120]).
  - discriminate.
  - repeat constructor.
  - vm_compute. reflexivity.
  - repeat constructor; vm_compute; discriminate.
  - vm_compute. reflexivity.
Defined.

Lemma cycles_rows_in df c r :
  In c (cycles df) -> In r (c_rows c) -> In r df.
Proof.
  intros Hc Hr.
  destruct (index_min (map date df)) as [lo |] eqn:Elo;
    [| unfold cycles in Hc; rewrite Elo in Hc; destruct Hc].
  destruct (index_max (map date df)) as [hi |] eqn:Ehi;
    [| unfold cycles in Hc; rewrite Elo, Ehi in Hc; destruct Hc].
  pose proof (cycles_loop df lo hi Elo Ehi) as H.
  now destruct (cycle_loop_rows df hi _ _ _ c r H Hc Hr).
Qed.

(** C7, as the specification states it, fails: a strategy whose series
    has only the first of the four dates of the window makes
    [compute_cycle_spd] raise KeyError when the weights of the cycle are
    read. *)
Lemma C7_partial_output_counterexample :
  compute_cycle_spd cfg four_days first_day_only = Err KeyError.
Proof. vm_compute. reflexivity. Qed.

(** C7, amended: the ingestion step keeps the index of the strategy's
    series, maps every negative weight and every NaN entry to 0 and keeps
    the other weights, so no ingested weight is negative; and when the
    window is not empty and every date of the window is in the index of
    the strategy's series, [compute_cycle_spd] raises nothing and returns
    one row per cycle. *)
Theorem C7_ingestion (conf : Config) (df : DataFrame)
        (weight_fn : DataFrame -> Series) :
  let dfb := loc_slice df (BACKTEST_START conf) (BACKTEST_END conf) in
  let full_weights := clip_lower (fillna (weight_fn df)) in
  dfb <> [] ->
  (forall r, In r dfb -> In (date r) (map fst (weight_fn df))) ->
  map fst full_weights = map fst (weight_fn df) /\
  (forall d w, In (d, w) full_weights -> 0 <= w) /\
  (forall d, In (d, None) (weight_fn df) -> In (d, 0) full_weights) /\
  (forall d v, In (d, Some v) (weight_fn df) -> v < 0 ->
               In (d, 0) full_weights) /\
  (forall d v, In (d, Some v) (weight_fn df) -> 0 <= v ->
               In (d, v) full_weights) /\
  exists rows,
    compute_cycle_spd conf df weight_fn = Ok rows /\
    length rows = length (cycles dfb) /\ rows <> [].
Proof.
  intros dfb full_weights Hne Hcover.
  assert (Hidx : map fst full_weights = map fst (weight_fn df)).
  { unfold full_weights, clip_lower, fillna. rewrite !map_map.
    apply map_ext. reflexivity. }
  assert (Hclip : forall d o,
             In (d, o) (weight_fn df) ->
             In (d, let v := match o with Some v => v | None => 0 end in
                    if Qltb v 0 then 0 else v) full_weights).
  { intros d o Hin. unfold full_weights, clip_lower, fillna.
    rewrite map_map. apply in_map_iff. exists (d, o). now split. }
  split; [exact Hidx |]. split; [| split; [| split; [| split]]].
  - intros d w Hin. unfold full_weights, clip_lower in Hin.
    apply in_map_iff in Hin. destruct Hin as (e & [= _ <-] & _).
    destruct (Qltb (snd e) 0) eqn:E; [lra |].
    destruct (Qlt_le_dec (snd e) 0) as [L | L]; [| exact L].
    apply Qltb_lt in L. congruence.
  - intros d Hin. apply (Hclip d None Hin).
  - intros d v Hin Hv. pose proof (Hclip d (Some v) Hin) as H.
    cbv beta iota zeta in H. apply Qltb_lt in Hv. now rewrite Hv in H.
  - intros d v Hin Hv. pose proof (Hclip d (Some v) Hin) as H.
    cbv beta iota zeta in H. destruct (Qltb v 0) eqn:E; [| exact H].
    apply Qltb_lt in E. lra.
  - unfold compute_cycle_spd. fold dfb. fold full_weights.
    destruct (mapM_ok (cycle_row full_weights) (cycles dfb)) as [rows Hrows].
    { intros c Hc.
      destruct (mapM_ok (loc1 full_weights) (map date (c_rows c)))
        as [ws Hws].
      { intros d Hd. apply loc1_ok. rewrite Hidx.
        apply in_map_iff in Hd. destruct Hd as (r & <- & Hr).
        apply Hcover. eapply cycles_rows_in; eauto. }
      eexists. apply (cycle_row_ok full_weights c ws Hws). }
    rewrite Hrows. cbn [bind].
    pose proof (mapM_length _ _ _ Hrows) as Hlen.
    pose proof (cycles_nonempty dfb Hne) as Hc.
    destruct rows as [| row rows].
    + destruct (cycles dfb); [congruence | discriminate].
    + eexists. repeat split; [exact Hlen | discriminate].
Qed.

Lemma C7_ingestion_witness :
  let full_weights := clip_lower (fillna (ragged four_days)) in
  map fst full_weights = map fst (ragged four_days) /\
  (forall d w, In (d, w) full_weights -> 0 <= w) /\
  (forall d, In (d, None) (ragged four_days) -> In (d, 0) full_weights) /\
  (forall d v, In (d, Some v) (ragged four_days) -> v < 0 ->
               In (d, 0) full_weights) /\
  (forall d v, In (d, Some v) (ragged four_days) -> 0 <= v ->
               In (d, v) full_weights) /\
  exists rows,
    compute_cycle_spd cfg four_days ragged = Ok rows /\
    length rows =
      length (cycles (loc_slice four_days (BACKTEST_START cfg)
                                (BACKTEST_END cfg))) /\
    rows <> [].
Proof.
  apply (C7_ingestion cfg four_days ragged).
  - discriminate.
  - intros r Hr. vm_compute in Hr.
    repeat (destruct Hr as [<- | Hr]; [vm_compute; auto 10 |]).
    destruct Hr.
Defined.






(* ================================================================== *)
(** * Further properties of the evaluator *)
(* ================================================================== *)

Module LoopFacts.

Import DateFacts Evaluator PartitionFacts.

Local Open Scope Z_scope.

Lemma year_iter_add_years k d :
  year (Nat.iter k (add_years 4) d) = year d + 4 * Z.of_nat k.
Proof.
  induction k as [| k IH]; [simpl; lia |].
  rewrite Nat.iter_succ, year_add_years, IH. lia.
Qed.

Lemma iter_add_years_shift k d :
  Nat.iter k (add_years 4) (add_years 4 d) =
  add_years 4 (Nat.iter k (add_years 4) d).
Proof.
  induction k as [| k IH]; [reflexivity |].
  rewrite !Nat.iter_succ. now rewrite IH.
Qed.

Lemma sub_one_day_lt x : lt (sub_one_day x) x.
Proof.
  unfold sub_one_day, lt.
  destruct (1 <? day x) eqn:E1; [simpl; lia |].
  destruct (1 <? month x) eqn:E2; simpl; [| lia].
  apply Z.ltb_lt in E2. lia.
Qed.

(** The k-th cycle starts k times four years after [current], its end is
    the nominal end clipped to [hi], and it starts no later than [hi]. *)
Lemma cycle_loop_nth df hi fuel :
  forall current cs k c,
    cycle_loop fuel df hi current = Some cs ->
    nth_error cs k = Some c ->
    c_start c = Nat.iter k (add_years 4) current /\
    c_end c = min (sub_one_day (add_years 4 (c_start c))) hi /\
    le (c_start c) hi /\
    c_rows c = filter (in_cycle (c_start c) (c_end c)) df.
Proof.
  induction fuel as [| fuel IH]; intros current cs k c H Hk; [discriminate |].
  apply cycle_loop_step in H.
  destruct H as [-> | (cs' & Hle & -> & H & _)]; [destruct k; discriminate |].
  destruct k as [| k]; cbn [nth_error] in Hk.
  - assert (Hc : c = mkCycle current
                      (min (sub_one_day (add_years 4 current)) hi)
                      (filter (in_cycle current
                         (min (sub_one_day (add_years 4 current)) hi)) df))
      by congruence.
    rewrite Hc. cbn [c_start c_end c_rows]. simpl Nat.iter. auto.
  - destruct (IH _ _ _ _ H Hk) as (H1 & H2 & H3 & H4).
    rewrite iter_add_years_shift in H1. rewrite Nat.iter_succ. auto.
Qed.

End LoopFacts.

Import LoopFacts.

(** X1: a frame with no date inside BACKTEST_START .. BACKTEST_END makes
    [compute_cycle_spd] raise KeyError (the table of no row has no
    [cycle] column to index by), whatever the strategy returns, and
    [backtest_dynamic_dca] raises with it. *)
Theorem empty_window_raises (conf : Config) (df : DataFrame)
        (weight_fn : DataFrame -> Series) :
  loc_slice df (BACKTEST_START conf) (BACKTEST_END conf) = [] ->
  compute_cycle_spd conf df weight_fn = Err KeyError /\
  backtest_dynamic_dca conf df weight_fn = Err KeyError.
Proof.
  intros Hempty.
  assert (H : compute_cycle_spd conf df weight_fn = Err KeyError).
  { unfold compute_cycle_spd. rewrite Hempty. reflexivity. }
  split; [exact H |]. unfold backtest_dynamic_dca. now rewrite H.
Qed.

Lemma empty_window_raises_witness :
  compute_cycle_spd cfg MoreExamples.before_window (compute_weights cfg)
  = Err KeyError /\
  backtest_dynamic_dca cfg MoreExamples.before_window (compute_weights cfg)
  = Err KeyError.
Proof.
  apply (empty_window_raises cfg).
  reflexivity.
Defined.

Lemma loc1_In s d w : loc1 s d = Ok w -> In d (map fst s).
Proof.
  induction s as [| e s IH]; simpl; [discriminate |].
  destruct (eqb (fst e) d) eqn:E.
  - apply DateFacts.eqb_eq in E. now left.
  - intros H. right. now apply IH.
Qed.

Lemma mapM_Ok_all {A B} (f : A -> result B) :
  forall l bs, mapM f l = Ok bs ->
               forall a, In a l -> exists b, f a = Ok b.
Proof.
  induction l as [| x l IH]; intros bs H a []; simpl in H;
    destruct (f x) as [b |] eqn:E; try discriminate; simpl in H;
    destruct (mapM f l) as [bs' |] eqn:E'; try discriminate.
  - subst. now exists b.
  - eapply IH; eauto.
Qed.

(** X2: [compute_cycle_spd] returns a table exactly when the window is
    not empty and every date of every cycle formed is a label of the
    strategy's series; the dates of the window that are in no cycle need
    not be. *)
Theorem compute_cycle_spd_succeeds_iff (conf : Config) (df : DataFrame)
        (weight_fn : DataFrame -> Series) :
  let dfb := loc_slice df (BACKTEST_START conf) (BACKTEST_END conf) in
  (exists rows, compute_cycle_spd conf df weight_fn = Ok rows) <->
  (dfb <> [] /\
   forall c r, In c (cycles dfb) -> In r (c_rows c) ->
               In (date r) (map fst (weight_fn df))).
Proof.
  intros dfb.
  assert (Hidx : map fst (clip_lower (fillna (weight_fn df))) =
                 map fst (weight_fn df)).
  { unfold clip_lower, fillna. rewrite !map_map. now apply map_ext. }
  unfold compute_cycle_spd. fold dfb. split.
  - intros [rows H].
    destruct (mapM _ (cycles dfb)) as [rs |] eqn:E; [| discriminate].
    cbn [bind] in H. destruct rs as [| row rs]; [discriminate |].
    split.
    + intros Hnil. rewrite Hnil in E. discriminate.
    + intros c r Hc Hr.
      destruct (mapM_Ok_all _ _ _ E c Hc) as [row' Hrow].
      unfold cycle_row in Hrow.
      destruct (loc _ (map date (c_rows c))) as [ws |] eqn:El;
        [| discriminate].
      destruct (mapM_Ok_all _ _ _ El (date r)) as [w Hw];
        [now apply in_map |].
      rewrite <- Hidx. eapply loc1_In; eauto.
  - intros [Hne Hcover].
    destruct (mapM_ok (cycle_row (clip_lower (fillna (weight_fn df))))
                      (cycles dfb)) as [rows Hrows].
    { intros c Hc.
      destruct (mapM_ok (loc1 (clip_lower (fillna (weight_fn df))))
                        (map date (c_rows c))) as [ws Hws].
      { intros d Hd. apply loc1_ok. rewrite Hidx.
        apply in_map_iff in Hd. destruct Hd as (r & <- & Hr). eauto. }
      eexists. apply (cycle_row_ok _ c ws Hws). }
    rewrite Hrows. cbn [bind].
    pose proof (mapM_length _ _ _ Hrows) as Hlen.
    pose proof (cycles_nonempty dfb Hne) as Hc.
    destruct rows as [| row rows]; [| now eexists].
    destruct (cycles dfb); [congruence | discriminate].
Qed.

(** X3: the cycles are laid on a fixed grid of four years from the first
    date of the window: the first cycle starts on that date, every next
    cycle starts four years after the one before, and a cycle that has a
    successor ends on the day before its successor starts. *)
Theorem cycles_on_four_year_grid (df_backtest : DataFrame) (lo : Timestamp) :
  index_min (map date df_backtest) = Some lo ->
  let cs := cycles df_backtest in
  (forall k c, nth_error cs k = Some c ->
               c_start c = Nat.iter k (add_years 4) lo /\
               year (c_start c) = (year lo + 4 * Z.of_nat k)%Z) /\
  (forall k ci cj,
     nth_error cs k = Some ci -> nth_error cs (S k) = Some cj ->
     c_start cj = add_years 4 (c_start ci) /\
     c_end ci = sub_one_day (c_start cj)).
Proof.
  intros Hlo cs.
  destruct (index_max (map date df_backtest)) as [hi |] eqn:Ehi;
    [| destruct df_backtest; discriminate].
  pose proof (cycles_loop df_backtest lo hi Hlo Ehi) as H. fold cs in H.
  split.
  - intros k c Hk.
    destruct (cycle_loop_nth _ _ _ _ _ _ _ H Hk) as (H1 & _).
    split; [exact H1 |]. rewrite H1. apply year_iter_add_years.
  - intros k ci cj Hi Hj.
    destruct (cycle_loop_nth _ _ _ _ _ _ _ H Hi) as (I1 & I2 & _).
    destruct (cycle_loop_nth _ _ _ _ _ _ _ H Hj) as (J1 & _ & J3 & _).
    assert (E : c_start cj = add_years 4 (c_start ci)).
    { rewrite J1, I1. apply Nat.iter_succ. }
    split; [exact E |].
    rewrite I2, <- E. unfold min.
    destruct (leb (sub_one_day (c_start cj)) hi) eqn:L; [reflexivity |].
    apply leb_false in L. exfalso.
    pose proof (sub_one_day_lt (c_start cj)) as Hlt.
    unfold lt, le in *. lia.
Qed.

Lemma cycles_on_four_year_grid_witness :
  let cs := cycles two_cycles in
  (forall k c, nth_error cs k = Some c ->
               c_start c = Nat.iter k (add_years 4) (D 2013 1 1) /\
               year (c_start c) = (2013 + 4 * Z.of_nat k)%Z) /\
  (forall k ci cj,
     nth_error cs k = Some ci -> nth_error cs (S k) = Some cj ->
     c_start cj = add_years 4 (c_start ci) /\
     c_end ci = sub_one_day (c_start cj)).
Proof.
  apply (cycles_on_four_year_grid two_cycles (D 2013 1 1)).
  reflexivity.
Defined.

(** X4: the loop forms at most one cycle per four years between the year
    of the first and the year of the last date of the window, and every
    cycle ends no later than the last date. *)
Theorem cycles_count_bound (df_backtest : DataFrame) (lo hi : Timestamp) :
  index_min (map date df_backtest) = Some lo ->
  index_max (map date df_backtest) = Some hi ->
  (Z.of_nat (length (cycles df_backtest))
   <= (year hi - year lo) / 4 + 1)%Z /\
  forall c, In c (cycles df_backtest) ->
            le (c_start c) (c_end c) /\ le (c_end c) hi.
Proof.
  intros Hlo Hhi.
  pose proof (cycles_loop df_backtest lo hi Hlo Hhi) as H.
  split.
  - destruct (cycles df_backtest) as [| c0 cs] eqn:Ecs.
    + simpl. assert (Hle : le lo hi).
      { eapply index_min_le; [exact Hlo |].
        eapply index_max_in; eauto. }
      assert (0 <= (year hi - year lo) / 4)%Z
        by (apply Z.div_pos; unfold le in Hle; lia).
      lia.
    + assert (Hlast : exists c, nth_error (c0 :: cs) (length cs) = Some c).
      { destruct (nth_error (c0 :: cs) (length cs)) eqn:E; [now eexists |].
        apply nth_error_None in E. simpl in E. lia. }
      destruct Hlast as [c Hc].
      destruct (cycle_loop_nth _ _ _ _ _ _ _ H Hc) as (H1 & _ & H3 & _).
      assert (Hy : (year lo + 4 * Z.of_nat (length cs) <= year hi)%Z).
      { rewrite <- year_iter_add_years, <- H1. unfold le in H3. lia. }
      assert (Z.of_nat (length cs) <= (year hi - year lo) / 4)%Z
        by (apply Z.div_le_lower_bound; lia).
      cbn [length]. lia.
  - intros c Hc.
    apply In_nth_error in Hc. destruct Hc as [k Hk].
    destruct (cycle_loop_nth _ _ _ _ _ _ _ H Hk) as (_ & H2 & _ & H4).
    pose proof (cycle_loop_nonempty df_backtest hi _ _ _ c H
                  (nth_error_In _ _ Hk)) as Hne.
    split.
    + destruct (c_rows c) as [| r rs] eqn:Er; [congruence |].
      assert (Hr : In r (filter (in_cycle (c_start c) (c_end c))
                                df_backtest))
        by (rewrite <- H4; now left).
      apply filter_In in Hr. destruct Hr as [_ Hb]. unfold in_cycle in Hb.
      apply andb_true_iff in Hb. destruct Hb as [B1 B2].
      apply leb_le in B1, B2. eapply le_trans; eassumption.
    + rewrite H2. apply min_le_r.
Qed.

Lemma cycles_count_bound_witness :
  (Z.of_nat (length (cycles two_cycles)) <= (2020 - 2013) / 4 + 1)%Z /\
  forall c, In c (cycles two_cycles) ->
            le (c_start c) (c_end c) /\ le (c_end c) (D 2020 6 1).
Proof.
  apply (cycles_count_bound two_cycles (D 2013 1 1) (D 2020 6 1));
    reflexivity.
Defined.

(* ================================================================== *)
(** * Further properties of the redistribution scan *)
(* ================================================================== *)

Module ScanMoreFacts.

Import Allocator ScanFacts.

Local Open Scope Q_scope.

Lemma nth_upd_neq i j v w : i <> j -> nth j (upd i v w) 0 = nth j w 0.
Proof.
  revert i j. induction w as [| x r IH]; intros [| i] [| j] H; simpl;
    auto; try congruence.
Qed.

Lemma nth_sub_from_lt s j red w :
  (j < s)%nat -> nth j (sub_from s red w) 0 = nth j w 0.
Proof.
  revert s j. induction w as [| x r IH]; intros [| s] [| j] H; simpl;
    auto; try lia.
  apply IH. lia.
Qed.

Lemma nth_mark_from s j m :
  nth j (mark_from s m) false = true ->
  nth j m false = true \/ (s <= j)%nat.
Proof.
  revert s j. induction m as [| b r IH]; intros [| s] [| j] H; simpl in *;
    auto; try (right; lia).
  destruct (IH _ _ H); [now left | right; lia].
Qed.

Section Group.

Variable cfg : Config.
Variable group : DataFrame.

(** A day with no dip leaves the weights as they are. *)
Lemma body_no_dip i w r :
  nth_error group i = Some r ->
  (forall sd, std100 r = Some sd ->
              ~ (btc_close r < ma100 r /\ 0 < sd)) ->
  body cfg group i w = (w, true).
Proof.
  intros Hr Hno. unfold body, attempt. rewrite Hr.
  destruct (std100 r) as [sd |]; [| reflexivity].
  destruct (Qltb (btc_close r) (ma100 r) && Qltb 0 sd) eqn:E;
    [| reflexivity].
  apply andb_true_iff in E. destruct E as [E1 E2].
  apply Qltb_lt in E1, E2. exfalso. apply (Hno sd eq_refl). now split.
Qed.

(** A day with no day to draw from leaves the weights as they are. *)
Lemma body_no_room i w :
  (Z.of_nat (length group)
   <= Z.max (Z.of_nat (length group) - REBALANCE_WINDOW cfg)
            (Z.of_nat i + 1))%Z ->
  body cfg group i w = (w, true).
Proof.
  intros Hroom. unfold body, attempt.
  destruct (nth_error group i) as [r |]; [| reflexivity].
  destruct (std100 r) as [sd |]; [| reflexivity].
  destruct (Qltb (btc_close r) (ma100 r) && Qltb 0 sd); [| reflexivity].
  apply Z.leb_le in Hroom. now rewrite Hroom.
Qed.

Lemma scan_unchanged indices :
  (forall i w, In i indices -> body cfg group i w = (w, true)) ->
  forall w a, scan cfg group indices w a = w.
Proof.
  induction indices as [| i rest IH]; intros H w a; simpl; auto.
  destruct a; simpl; auto.
  rewrite (H i w) by now left. apply IH. intros; apply H; now right.
Qed.

(** A step touches day [i] and days after it only. *)
Lemma body_keeps_before i j w w' a :
  body cfg group i w = (w', a) -> (j < i)%nat -> nth j w' 0 = nth j w 0.
Proof.
  unfold body. destruct (attempt cfg group i w) as [| | s w0 |] eqn:E;
    intros [= <- <-] Hj; auto.
  apply attempt_commit in E.
  destruct E as (r & sd & _ & _ & _ & _ & His & _ & _ & ->).
  rewrite nth_sub_from_lt by lia. apply nth_upd_neq. lia.
Qed.

Lemma scan_keeps_before j indices :
  (forall i, In i indices -> (j < i)%nat) ->
  forall w a, nth j (scan cfg group indices w a) 0 = nth j w 0.
Proof.
  induction indices as [| i rest IH]; intros H w a; simpl; auto.
  destruct a; simpl; auto.
  destruct (body cfg group i w) as [w' a'] eqn:E.
  rewrite IH by (intros; apply H; now right).
  eapply body_keeps_before; eauto. apply H. now left.
Qed.

End Group.

Lemma body_same_prefix cfg g1 g2 i w :
  length g1 = length g2 -> nth_error g1 i = nth_error g2 i ->
  body cfg g1 i w = body cfg g2 i w.
Proof.
  intros Hlen Hi. unfold body, attempt. now rewrite Hlen, Hi.
Qed.

Lemma scan_same_prefix cfg g1 g2 j l2 :
  length g1 = length g2 ->
  (forall i, In i l2 -> (j < i)%nat) ->
  forall l1 w a,
    (forall i, In i l1 -> nth_error g1 i = nth_error g2 i) ->
    nth j (scan cfg g1 (l1 ++ l2) w a) 0 =
    nth j (scan cfg g2 (l1 ++ l2) w a) 0.
Proof.
  intros Hlen H2. induction l1 as [| i l1 IH]; intros w a H1.
  - simpl. now rewrite !scan_keeps_before.
  - simpl. destruct a; simpl; auto.
    rewrite (body_same_prefix cfg g1 g2 i w Hlen) by (apply H1; now left).
    destruct (body cfg g2 i w) as [w' a'].
    apply IH. intros; apply H1; now right.
Qed.

Section Base.

Variable cfg : Config.
Variable group : DataFrame.
Variable base : Q.
Hypothesis base_nonneg : 0 <= base.
Hypothesis alpha_nonneg : 0 <= ALPHA cfg.

(** An unmarked day holds at least the base weight. *)
Let keeps_base : list Q -> list bool -> Prop :=
  Forall2 (fun (x : Q) (b : bool) => b = false -> base <= x).

Lemma keeps_base_upd w m i v :
  keeps_base w m -> (base <= nth i w 0 -> base <= v) ->
  keeps_base (upd i v w) m.
Proof.
  intros H. revert i.
  induction H as [| x b w m Hx Hr IH]; intros [| i] Hv; simpl in *.
  - constructor.
  - constructor.
  - constructor; [| assumption]. intros Hb. apply Hv, Hx, Hb.
  - constructor; [assumption |]. now apply IH.
Qed.

Lemma keeps_base_sub_from w m s red :
  keeps_base w m -> keeps_base (sub_from s red w) (mark_from s m).
Proof.
  intros H. revert s.
  induction H as [| x b w m Hx Hr IH]; intros [| s]; simpl.
  - constructor.
  - constructor.
  - constructor; [discriminate | apply IH].
  - constructor; [assumption | apply IH].
Qed.

Lemma scan_marked_keeps_base indices :
  forall w m a,
    keeps_base w m ->
    keeps_base (fst (scan_marked cfg group indices w m a))
               (snd (scan_marked cfg group indices w m a)).
Proof.
  induction indices as [| i rest IH]; intros w m a H; simpl; auto.
  destruct a; simpl; auto.
  destruct (attempt cfg group i w) as [| | s w0 |] eqn:E;
    try (now apply IH).
  apply IH. apply attempt_commit in E.
  destruct E as (r & sd & _ & _ & Hp & Hsd & _ & _ & _ & ->).
  apply keeps_base_sub_from. apply keeps_base_upd; [assumption |].
  intros Hb.
  assert (Hz : 0 < (ma100 r - btc_close r) / sd)
    by (apply Qlt_shift_div_l; [assumption | lra]).
  assert (Haz : 0 <= ALPHA cfg * ((ma100 r - btc_close r) / sd))
    by (apply Qmult_le_0_compat; [assumption | lra]).
  assert (Hc : 0 <= nth i w 0) by lra.
  pose proof (Qmult_le_0_compat _ _ Hc Haz). lra.
Qed.

Lemma keeps_base_nth w m j :
  keeps_base w m -> (j < length w)%nat -> nth j m false = false ->
  base <= nth j w 0.
Proof.
  intros H. revert j.
  induction H as [| x b w m Hx _ IH]; intros [| j] Hj Hun; simpl in *;
    try lia; auto.
  apply IH; [lia | assumption].
Qed.

Lemma keeps_base_repeat n : keeps_base (repeat base n) (repeat false n).
Proof.
  induction n; simpl; constructor; [intros _; lra | assumption].
Qed.

(** Marks are set from the start of a committed window on. *)
Lemma scan_marked_marks indices (bound : nat) :
  (forall i w s w', In i indices ->
                    attempt cfg group i w = Commit s w' ->
                    (bound <= s)%nat) ->
  forall w m a j,
    nth j (snd (scan_marked cfg group indices w m a)) false = true ->
    nth j m false = true \/ (bound <= j)%nat.
Proof.
  induction indices as [| i rest IH]; intros Hb w m a j H; simpl in H;
    auto.
  destruct a; simpl in H; auto.
  assert (Hrest : forall i0 w0 s w', In i0 rest ->
                    attempt cfg group i0 w0 = Commit s w' ->
                    (bound <= s)%nat)
    by (intros; eapply Hb; eauto; now right).
  destruct (attempt cfg group i w) as [| | s w0 |] eqn:E;
    try (now apply (IH Hrest) in H).
  apply (IH Hrest) in H. destruct H as [H | H]; [| now right].
  apply nth_mark_from in H. destruct H as [H | H]; [now left |].
  right. pose proof (Hb i w s w0 (or_introl eq_refl) E). lia.
Qed.

End Base.

End ScanMoreFacts.

Import ScanMoreFacts MoreExamples.

(** X5: a cycle in which no day has its price below its trailing mean
    with a positive deviation gets the uniform weights 1/N: the strategy
    is plain periodic buying there. *)
Theorem no_dip_uniform (conf : Config) (group : DataFrame) :
  (forall r sd, In r group -> std100 r = Some sd ->
                ~ (btc_close r < ma100 r /\ 0 < sd)) ->
  cycle_weights conf group =
  repeat (1 / inject_Z (Z.of_nat (length group))) (length group).
Proof.
  intros Hno. unfold cycle_weights. apply scan_unchanged.
  intros i w Hi. apply in_seq in Hi.
  destruct (nth_error group i) as [r |] eqn:E.
  - apply (body_no_dip conf group i w r E).
    intros sd. apply Hno. eapply nth_error_In; eauto.
  - apply nth_error_None in E. lia.
Qed.

Lemma no_dip_uniform_witness :
  cycle_weights cfg rising = repeat (1 / inject_Z (Z.of_nat 3)) 3.
Proof.
  apply (no_dip_uniform cfg rising).
  intros r sd Hin Hsd [Hlt _]. simpl in Hin.
  destruct Hin as [<- | [<- | [<- | []]]]; vm_compute in Hlt; discriminate.
Defined.

(** X6: with a redistribution window of no day (REBALANCE_WINDOW <= 0),
    or in a cycle of a single day, no boost is ever made: the weights are
    the uniform weights whatever the prices are. *)
Theorem no_room_uniform (conf : Config) (group : DataFrame) :
  (REBALANCE_WINDOW conf <= 0)%Z \/ length group = 1%nat ->
  cycle_weights conf group =
  repeat (1 / inject_Z (Z.of_nat (length group))) (length group).
Proof.
  intros H. unfold cycle_weights. apply scan_unchanged.
  intros i w Hi. apply in_seq in Hi. apply body_no_room. lia.
Qed.

Lemma no_room_uniform_witness :
  cycle_weights cfg [mkRow (D 2013 1 1) 10 100 (Some 1)] = [1].
Proof.
  apply (no_room_uniform cfg [mkRow (D 2013 1 1) 10 100 (Some 1)]).
  right. reflexivity.
Defined.

(** X7: the weight of a day does not depend on the rows after it: two
    cycles of the same length whose rows agree up to day j give day j the
    same weight. *)
Theorem no_look_ahead (conf : Config) (g1 g2 : DataFrame) (j : nat) :
  length g1 = length g2 ->
  firstn (S j) g1 = firstn (S j) g2 ->
  nth j (cycle_weights conf g1) 0 = nth j (cycle_weights conf g2) 0.
Proof.
  intros Hlen Hpre.
  destruct (Nat.le_gt_cases (length g1) j) as [Hj | Hj].
  - rewrite !nth_overflow; auto; rewrite cycle_weights_length; lia.
  - unfold cycle_weights. rewrite <- Hlen.
    assert (Hseq : seq 0 (length g1) =
                   seq 0 (S j) ++ seq (S j) (length g1 - S j)).
    { replace (length g1) with (S j + (length g1 - S j))%nat at 1 by lia.
      apply seq_app. }
    rewrite Hseq.
    apply scan_same_prefix; [assumption | |].
    + intros i Hi. apply in_seq in Hi. lia.
    + intros i Hi. apply in_seq in Hi.
      assert (Hlt : (i <? S j)%nat = true) by (apply Nat.ltb_lt; lia).
      pose proof (nth_error_firstn (S j) g1 i) as E1.
      pose proof (nth_error_firstn (S j) g2 i) as E2.
      rewrite Hlt in E1, E2. rewrite <- E1, <- E2. now rewrite Hpre.
Qed.

Lemma no_look_ahead_witness :
  nth 2 (cycle_weights cfg four_days) 0 =
  nth 2 (cycle_weights cfg four_days_alt) 0.
Proof.
  apply (no_look_ahead cfg four_days four_days_alt 2); reflexivity.
Defined.

Lemma attempt_commit_start conf group i w s w' :
  attempt conf group i w = Commit s w' ->
  s = Z.to_nat (Z.max (Z.of_nat (length group) - REBALANCE_WINDOW conf)
                      (Z.of_nat i + 1)).
Proof.
  unfold attempt.
  destruct (nth_error group i) as [r |]; [| discriminate].
  destruct (std100 r) as [sd |]; [| discriminate].
  destruct (Qltb (btc_close r) (ma100 r) && Qltb 0 sd); [| discriminate].
  destruct (Z.of_nat (length group) <=? _)%Z; [discriminate |].
  destruct (forallb _ _); [| discriminate].
  now intros [= <- _].
Qed.

(** X8: with a sensitivity that is not negative, weight is only ever
    taken from the last REBALANCE_WINDOW days of a cycle, never from its
    first day, and a day from which none was taken ends the cycle with at
    least the uniform weight 1/N. *)
Theorem early_days_keep_base (conf : Config) (group : DataFrame) :
  0 <= ALPHA conf ->
  forall j,
    (nth j (reduced_days conf group) false = true ->
     (Z.of_nat (length group) - REBALANCE_WINDOW conf <= Z.of_nat j)%Z /\
     (1 <= j)%nat) /\
    ((j < length group)%nat ->
     nth j (reduced_days conf group) false = false ->
     1 / inject_Z (Z.of_nat (length group))
     <= nth j (cycle_weights conf group) 0).
Proof.
  intros Halpha j.
  assert (Hbase : 0 <= 1 / inject_Z (Z.of_nat (length group))).
  { unfold Qdiv. apply Qmult_le_0_compat; [lra |].
    apply Qinv_le_0_compat. change 0 with (inject_Z 0).
    rewrite <- Zle_Qle. lia. }
  split.
  - intros Hmark. unfold reduced_days in Hmark.
    apply (scan_marked_marks conf group (seq 0 (length group))
             (Z.to_nat (Z.max (Z.of_nat (length group)
                               - REBALANCE_WINDOW conf) 1)))
      in Hmark.
    + destruct Hmark as [Hm | Hm]; [| lia].
      exfalso. revert Hm. generalize (length group). clear.
      intros n. revert j.
      induction n as [| n IH]; intros [| j] Hm; simpl in Hm;
        try discriminate. eauto.
    + intros i w s w' _ E. apply attempt_commit_start in E. lia.
  - intros Hj Hun.
    pose proof (scan_marked_keeps_base conf group _ Hbase Halpha
                  (seq 0 (length group))
                  (repeat (1 / inject_Z (Z.of_nat (length group)))
                          (length group))
                  (repeat false (length group)) true
                  (keeps_base_repeat _ _)) as H.
    rewrite scan_marked_fst in H.
    apply (keeps_base_nth _ _ _ _ H); [| exact Hun].
    fold (cycle_weights conf group). now rewrite cycle_weights_length.
Qed.

Lemma early_days_keep_base_witness :
  (nth 1 (reduced_days cfg four_days) false = true ->
   (Z.of_nat (length four_days) - REBALANCE_WINDOW cfg <= Z.of_nat 1)%Z /\
   (1 <= 1)%nat) /\
  ((1 < length four_days)%nat ->
   nth 1 (reduced_days cfg four_days) false = false ->
   1 / inject_Z (Z.of_nat (length four_days))
   <= nth 1 (cycle_weights cfg four_days) 0).
Proof.
  apply (early_days_keep_base cfg four_days).
  vm_compute. discriminate.
Defined.

(* ================================================================== *)
(** * Further properties of the metrics *)
(* ================================================================== *)

Module MetricsMoreFacts.

Import Allocator Evaluator ScanFacts MetricsFacts.

Local Open Scope Q_scope.

Lemma pct_value x lo hi :
  lo < hi ->
  fmul (fdiv (x - lo) (hi - lo)) 100 = Fin ((x - lo) / (hi - lo) * 100).
Proof.
  intros Hr. unfold fdiv.
  destruct (Qeq_bool (hi - lo) 0) eqn:E; [| reflexivity].
  apply Qeq_bool_iff in E. lra.
Qed.

Lemma weighted_repeat b :
  forall vs,
    Qsum (map (fun p => fst p * snd p) (combine (repeat b (length vs)) vs))
    == b * Qsum vs.
Proof.
  induction vs as [| v vs IH]; simpl; [ring |]. rewrite IH. ring.
Qed.

Lemma weighted_one_hot :
  forall vs j,
    (j < length vs)%nat ->
    Qsum (map (fun p => fst p * snd p)
              (combine (upd j 1 (repeat 0 (length vs))) vs))
    == nth j vs 0.
Proof.
  induction vs as [| v vs IH]; intros [| j] Hj; simpl in *; try lia.
  - rewrite (weighted_repeat 0 vs). ring.
  - rewrite IH by lia. ring.
Qed.

End MetricsMoreFacts.

Import MetricsMoreFacts.

(** X9: in a cycle of positive prices whose highest price is above its
    lowest, excess_pct is the difference of dynamic_spd and uniform_spd
    over the SPD range, times 100; it is not negative exactly when the
    strategy buys at least as many sats per dollar as uniform buying. *)
Theorem excess_pct_sign full_weights c ws :
  c_rows c <> [] ->
  Forall (fun r => 0 < btc_close r) (c_rows c) ->
  loc full_weights (map date (c_rows c)) = Ok ws ->
  np_min (map btc_close (c_rows c)) < np_max (map btc_close (c_rows c)) ->
  exists row e,
    cycle_row full_weights c = Ok row /\
    excess_pct row = Fin e /\
    e == (dynamic_spd row - uniform_spd row)
         / (max_spd row - min_spd row) * 100 /\
    (0 <= e <-> uniform_spd row <= dynamic_spd row).
Proof.
  intros Hne Hpos Hloc Hlt.
  rewrite (cycle_row_ok full_weights c ws Hloc).
  destruct (low_positive (c_rows c) Hne Hpos) as [Hlo _].
  pose proof (spd_antitone_strict _ _ Hlo Hlt) as Hrange.
  eexists. eexists. split; [reflexivity |].
  cbn [excess_pct dynamic_spd uniform_spd max_spd min_spd].
  rewrite !(pct_value _ _ _ Hrange). unfold fsub. cbn [fopp fadd].
  split; [reflexivity |].
  set (d := Qsum _). set (u := mean _).
  set (lo := 1 / np_max _ * sats) in *.
  set (hi := 1 / np_min _ * sats) in *.
  assert (Hr : 0 < hi - lo) by lra.
  assert (E : (d - lo) / (hi - lo) * 100 + - ((u - lo) / (hi - lo) * 100)
              == (d - u) / (hi - lo) * 100) by (field; lra).
  split; [exact E |]. rewrite E. split.
  - intros He.
    assert (H0 : 0 <= (d - u) / (hi - lo)) by lra.
    assert (H1 : 0 <= (d - u) / (hi - lo) * (hi - lo))
      by (apply Qmult_le_0_compat; lra).
    assert (E1 : (d - u) / (hi - lo) * (hi - lo) == d - u)
      by (field; lra).
    lra.
  - intros Hud.
    assert (H0 : 0 <= (d - u) / (hi - lo))
      by (apply Qle_shift_div_l; lra).
    lra.
Qed.

Lemma excess_pct_sign_witness :
  exists row e,
    cycle_row (clip_lower (fillna (compute_weights cfg four_days)))
              (mkCycle (D 2013 1 1) (D 2013 1 4) four_days) = Ok row /\
    excess_pct row = Fin e /\
    e == (dynamic_spd row - uniform_spd row)
         / (max_spd row - min_spd row) * 100 /\
    (0 <= e <-> uniform_spd row <= dynamic_spd row).
Proof.
  apply (excess_pct_sign
           (clip_lower (fillna (compute_weights cfg four_days)))
           (mkCycle (D 2013 1 1) (D 2013 1 4) four_days)
           [1 # 4; 90 # 160; 480 # 5120; 480 # 5120]).
  - discriminate.
  - repeat constructor.
  - vm_compute. reflexivity.
  - vm_compute. reflexivity.
Defined.

(** X10: a strategy that gives every day of a cycle the weight 1/N
    scores exactly as the uniform baseline: dynamic_spd equals
    uniform_spd, and excess_pct is 0 when the highest price is above the
    lowest. *)
Theorem uniform_weights_no_excess full_weights c :
  c_rows c <> [] ->
  Forall (fun r => 0 < btc_close r) (c_rows c) ->
  loc full_weights (map date (c_rows c)) =
    Ok (repeat (1 / inject_Z (Z.of_nat (length (c_rows c))))
               (length (c_rows c))) ->
  exists row,
    cycle_row full_weights c = Ok row /\
    dynamic_spd row == uniform_spd row /\
    (np_min (map btc_close (c_rows c)) < np_max (map btc_close (c_rows c)) ->
     exists e, excess_pct row = Fin e /\ e == 0).
Proof.
  intros Hne Hpos Hloc.
  rewrite (cycle_row_ok full_weights c _ Hloc). eexists.
  split; [reflexivity |].
  cbn [excess_pct dynamic_spd uniform_spd dynamic_pct uniform_pct].
  set (inv := map (fun r => 1 / btc_close r * sats) (c_rows c)).
  assert (Hlen : length (c_rows c) = length inv)
    by (unfold inv; now rewrite length_map).
  assert (Hd : Qsum (map (fun p => fst p * snd p)
                 (combine (repeat (1 / inject_Z (Z.of_nat (length (c_rows c))))
                                  (length (c_rows c))) inv))
               == mean inv).
  { rewrite Hlen. rewrite weighted_repeat. unfold mean.
    field. intros Hz.
    assert (Hp : 0 < inject_Z (Z.of_nat (length inv))).
    { apply inject_nat_pos. rewrite <- Hlen.
      destruct (c_rows c); [congruence | simpl; lia]. }
    lra. }
  split; [exact Hd |]. intros Hlt.
  destruct (low_positive (c_rows c) Hne Hpos) as [Hlo _].
  pose proof (spd_antitone_strict _ _ Hlo Hlt) as Hrange.
  rewrite !(pct_value _ _ _ Hrange). unfold fsub. cbn [fopp fadd].
  eexists. split; [reflexivity |]. rewrite Hd.
  set (lo := 1 / np_max _ * sats) in *.
  set (hi := 1 / np_min _ * sats) in *.
  field. lra.
Qed.

Lemma uniform_weights_no_excess_witness :
  exists row,
    cycle_row (clip_lower (fillna (compute_weights cfg rising)))
              (mkCycle (D 2013 1 1) (D 2013 1 3) rising) = Ok row /\
    dynamic_spd row == uniform_spd row /\
    (np_min (map btc_close rising) < np_max (map btc_close rising) ->
     exists e, excess_pct row = Fin e /\ e == 0).
Proof.
  apply (uniform_weights_no_excess
           (clip_lower (fillna (compute_weights cfg rising)))
           (mkCycle (D 2013 1 1) (D 2013 1 3) rising)).
  - discriminate.
  - repeat constructor.
  - vm_compute. reflexivity.
Defined.

(** X11: the percentile scale is anchored at the extremes of the cycle:
    all the weight on a day at the lowest price scores dynamic_pct = 100,
    all the weight on a day at the highest price scores 0. *)
Theorem one_day_percentile full_weights c j r :
  c_rows c <> [] ->
  Forall (fun r => 0 < btc_close r) (c_rows c) ->
  nth_error (c_rows c) j = Some r ->
  loc full_weights (map date (c_rows c)) =
    Ok (upd j 1 (repeat 0 (length (c_rows c)))) ->
  np_min (map btc_close (c_rows c)) < np_max (map btc_close (c_rows c)) ->
  exists row u,
    cycle_row full_weights c = Ok row /\
    dynamic_pct row = Fin u /\
    (btc_close r == np_min (map btc_close (c_rows c)) -> u == 100) /\
    (btc_close r == np_max (map btc_close (c_rows c)) -> u == 0).
Proof.
  intros Hne Hpos Hr Hloc Hlt.
  rewrite (cycle_row_ok full_weights c _ Hloc).
  destruct (low_positive (c_rows c) Hne Hpos) as [Hlo _].
  pose proof (spd_antitone_strict _ _ Hlo Hlt) as Hrange.
  eexists. eexists. split; [reflexivity |]. cbn [dynamic_pct].
  rewrite (pct_value _ _ _ Hrange). split; [reflexivity |].
  set (inv := map (fun r => 1 / btc_close r * sats) (c_rows c)).
  assert (Hlen : length (c_rows c) = length inv)
    by (unfold inv; now rewrite length_map).
  assert (Hj : (j < length inv)%nat).
  { rewrite <- Hlen. apply nth_error_Some. congruence. }
  assert (Hd : Qsum (map (fun p => fst p * snd p)
                 (combine (upd j 1 (repeat 0 (length (c_rows c)))) inv))
               == 1 / btc_close r * sats).
  { rewrite Hlen, weighted_one_hot by assumption.
    unfold inv.
    pose proof (map_nth_error (fun r0 => 1 / btc_close r0 * sats)
                  j (c_rows c) Hr) as E.
    apply (nth_error_nth _ _ 0) in E. now rewrite E. }
  rewrite Hd.
  set (lo := 1 / np_max _ * sats) in *.
  set (hi := 1 / np_min _ * sats) in *.
  split; intros E.
  - assert (E1 : 1 / btc_close r * sats == hi)
      by (unfold hi; now rewrite E).
    rewrite E1. field. lra.
  - assert (E1 : 1 / btc_close r * sats == lo)
      by (unfold lo; now rewrite E).
    rewrite E1. field. lra.
Qed.

Lemma one_day_percentile_witness :
  exists row u,
    cycle_row [(D 2013 1 1, 0); (D 2013 1 2, 1); (D 2013 1 3, 0);
               (D 2013 1 4, 0)]
              (mkCycle (D 2013 1 1) (D 2013 1 4) four_days) = Ok row /\
    dynamic_pct row = Fin u /\
    (80 == np_min (map btc_close four_days) -> u == 100) /\
    (80 == np_max (map btc_close four_days) -> u == 0).
Proof.
  apply (one_day_percentile
           [(D 2013 1 1, 0); (D 2013 1 2, 1); (D 2013 1 3, 0);
            (D 2013 1 4, 0)]
           (mkCycle (D 2013 1 1) (D 2013 1 4) four_days) 1
           (mkRow (D 2013 1 2) 80 90 (Some 10))).
  - discriminate.
  - repeat constructor.
  - reflexivity.
  - reflexivity.
  - vm_compute. reflexivity.
Defined.

(* ================================================================== *)
(** * The allocator under the evaluator *)
(* ================================================================== *)

Module PipelineFacts.

Import DateFacts Allocator Evaluator.
Import PartitionFacts GroupFacts ScanFacts SeriesFacts MetricsFacts.

Local Open Scope Q_scope.

Lemma ingest_index (s : Series) :
  map fst (clip_lower (fillna s)) = map fst s.
Proof.
  unfold clip_lower, fillna. rewrite !map_map. now apply map_ext.
Qed.

Lemma ingest_In (s : Series) d v :
  In (d, Some v) s -> 0 <= v -> In (d, v) (clip_lower (fillna s)).
Proof.
  intros Hin Hv. unfold clip_lower, fillna. rewrite map_map.
  apply in_map_iff. exists (d, Some v). split; [| assumption].
  cbn [fst snd]. destruct (Qltb v 0) eqn:E; [| reflexivity].
  apply Qltb_lt in E. lra.
Qed.

Lemma loc1_unique (s : list (Timestamp * Q)) d v :
  NoDup (map fst s) -> In (d, v) s -> loc1 s d = Ok v.
Proof.
  induction s as [| e s IH]; intros Hnd Hin; [destruct Hin |].
  inversion Hnd as [| ? ? Hk Hnd']; subst. simpl.
  destruct Hin as [-> | Hin].
  - cbn [fst snd]. assert (E : eqb d d = true) by now apply eqb_eq.
    now rewrite E.
  - destruct (eqb (fst e) d) eqn:E; [| now apply IH].
    apply eqb_eq in E. exfalso. apply Hk. rewrite E.
    change d with (fst (d, v)). now apply in_map.
Qed.

Lemma loc_combine (s : list (Timestamp * Q)) :
  NoDup (map fst s) ->
  forall ds vs,
    length ds = length vs ->
    (forall e, In e (combine ds vs) -> In e s) ->
    loc s ds = Ok vs.
Proof.
  intros Hnd. unfold loc.
  induction ds as [| d ds IH]; intros [| v vs] Hlen Hin;
    try discriminate; [reflexivity |].
  simpl. rewrite (loc1_unique s d v Hnd) by (apply Hin; now left).
  cbn [bind]. rewrite (IH vs); [reflexivity | simpl in Hlen; lia |].
  intros e He. apply Hin. now right.
Qed.

Lemma combine_map_Some (ds : list Timestamp) :
  forall (vs : list Q) d v,
    In (d, v) (combine ds vs) ->
    In (d, Some v) (combine ds (map Some vs)).
Proof.
  induction ds as [| x ds IH]; intros [| y vs] d v H; simpl in *;
    try tauto.
  destruct H as [[= <- <-] | H]; [now left | right; now apply IH].
Qed.

Lemma mapM_Forall2 {A B} (f : A -> result B) :
  forall l bs, mapM f l = Ok bs -> Forall2 (fun a b => f a = Ok b) l bs.
Proof.
  induction l as [| a l IH]; intros bs; simpl.
  - intros [= <-]. constructor.
  - destruct (f a) as [b |] eqn:E; [| discriminate]. cbn [bind].
    destruct (mapM f l) as [bs' |]; [| discriminate]. cbn [bind].
    intros [= <-]. constructor; auto.
Qed.

(** The table of a window whose dates are all labels of the strategy's
    series: one row per cycle, each the row of its cycle. *)
Lemma compute_cycle_spd_covered conf df weight_fn :
  let dfb := loc_slice df (BACKTEST_START conf) (BACKTEST_END conf) in
  dfb <> [] ->
  (forall r, In r dfb -> In (date r) (map fst (weight_fn df))) ->
  exists rows,
    compute_cycle_spd conf df weight_fn = Ok rows /\
    Forall2 (fun c row =>
               cycle_row (clip_lower (fillna (weight_fn df))) c = Ok row)
            (cycles dfb) rows.
Proof.
  intros dfb Hne Hcover. unfold compute_cycle_spd. fold dfb.
  destruct (mapM_ok (cycle_row (clip_lower (fillna (weight_fn df))))
                    (cycles dfb)) as [rows Hrows].
  { intros c Hc.
    destruct (mapM_ok (loc1 (clip_lower (fillna (weight_fn df))))
                      (map date (c_rows c))) as [ws Hws].
    { intros d Hd. apply loc1_ok. rewrite ingest_index.
      apply in_map_iff in Hd. destruct Hd as (r & <- & Hr).
      apply Hcover.
      destruct (index_min (map date dfb)) as [lo |] eqn:Elo;
        [| unfold cycles in Hc; rewrite Elo in Hc; destruct Hc].
      destruct (index_max (map date dfb)) as [hi |] eqn:Ehi;
        [| unfold cycles in Hc; rewrite Elo, Ehi in Hc; destruct Hc].
      pose proof (cycles_loop dfb lo hi Elo Ehi) as H.
      now destruct (cycle_loop_rows dfb hi _ _ _ c r H Hc Hr). }
    eexists. apply (cycle_row_ok _ c ws Hws). }
  rewrite Hrows. cbn [bind].
  pose proof (mapM_length _ _ _ Hrows) as Hlen.
  pose proof (cycles_nonempty dfb Hne) as Hc.
  pose proof (mapM_Forall2 _ _ _ Hrows) as HF.
  destruct rows as [| row rows]; [| now eexists].
  destruct (cycles dfb); [congruence | discriminate].
Qed.

(** With the window starting on 1 January of the start year, the weights
    the evaluator reads for a cycle are the weights the allocator gave
    that cycle. *)
Lemma loc_cycle_weights conf df c :
  let dfb := loc_slice df (BACKTEST_START conf) (BACKTEST_END conf) in
  0 <= MIN_WEIGHT conf -> 0 <= ALPHA conf ->
  NoDup (map date dfb) ->
  Forall (fun r => valid (date r) = true) dfb ->
  index_min (map date dfb) =
    Some (mkTimestamp (year (BACKTEST_START conf)) 1 1) ->
  In c (cycles dfb) ->
  loc (clip_lower (fillna (compute_weights conf df))) (map date (c_rows c))
  = Ok (cycle_weights conf (c_rows c)) /\
  Qsum (cycle_weights conf (c_rows c)) == 1 /\
  Forall (fun w => 0 <= w) (cycle_weights conf (c_rows c)).
Proof.
  intros dfb Hmin Halpha Hnd Hvalid Hlo Hc.
  set (label := fun d => cycle_label (year (BACKTEST_START conf)) d).
  destruct (index_max (map date dfb)) as [hi |] eqn:Ehi;
    [| destruct dfb; discriminate].
  pose proof (cycles_loop dfb _ hi Hlo Ehi) as Hloop.
  apply In_nth_error in Hc. destruct Hc as [k Hk].
  assert (Hdf : Forall (fun r => valid (date r) = true /\ le (date r) hi) dfb).
  { rewrite Forall_forall in *. intros r Hr. split; [now apply Hvalid |].
    eapply index_max_ge; [exact Ehi | now apply in_map]. }
  assert (Hrows : c_rows c =
                  filter (fun r => (label (date r) =? Z.of_nat k)%Z) dfb).
  { change (Z.of_nat k) with (0 + Z.of_nat k)%Z.
    eapply (cycle_loop_jan1 dfb hi (year (BACKTEST_START conf)) Hdf);
      [| exact Hloop | exact Hk].
    f_equal. lia. }
  pose proof (cycle_loop_nonempty dfb hi _ _ _ c Hloop
                (nth_error_In _ _ Hk)) as Hne.
  assert (Hg : In (Z.of_nat k, c_rows c)
                  (groupby (fun r => label (date r)) dfb)).
  { apply groupby_In. split; [| exact Hrows].
    destruct (c_rows c) as [| r rs] eqn:Ec; [congruence |].
    assert (Hr : In r (filter (fun r => (label (date r) =? Z.of_nat k)%Z)
                              dfb))
      by (rewrite <- Hrows; now left).
    apply filter_In in Hr. destruct Hr as [Hr Hl]. apply Z.eqb_eq in Hl.
    apply in_map_iff. exists r. split; assumption. }
  destruct (compute_weights_emit conf df Hnd) as [Hidx Hemit].
  specialize (Hemit _ _ Hg).
  assert (Hnn : forall x, In x (cycle_weights conf (c_rows c)) -> 0 <= x)
    by (apply cycle_weights_nonneg; assumption).
  split; [| split].
  - apply loc_combine.
    + rewrite ingest_index, Hidx. exact Hnd.
    + now rewrite length_map, cycle_weights_length.
    + intros [d v] He. apply ingest_In.
      * apply combine_map_Some in He. rewrite <- Hemit in He.
        now apply filter_In in He.
      * apply Hnn. eapply in_combine_r; eauto.
  - now apply cycle_weights_sum.
  - now apply Forall_forall.
Qed.

End PipelineFacts.

Import PipelineFacts.

(** X12: the ingestion step changes nothing in a series that keeps the
    strategy contract (every weight a number, none negative): wrapping
    its result back gives the series itself; on any series, ingesting
    twice is ingesting once. *)
Theorem ingest_round_trip (s : Series) :
  let ingest := fun s0 : Series =>
    map (fun e => (fst e, Some (snd e))) (clip_lower (fillna s0)) in
  (Forall (fun e => exists q, snd e = Some q /\ 0 <= q) s -> ingest s = s) /\
  ingest (ingest s) = ingest s.
Proof.
  intros ingest.
  assert (Hvalid : forall s0 : Series,
             Forall (fun e => exists q, snd e = Some q /\ 0 <= q) s0 ->
             ingest s0 = s0).
  { intros s0 H. unfold ingest, clip_lower, fillna. rewrite !map_map.
    rewrite <- (map_id s0) at 2. apply map_ext_in. intros [d o] Hin.
    rewrite Forall_forall in H. destruct (H _ Hin) as (q & Hq & Hnn).
    cbn [fst snd] in *. subst o.
    destruct (Qltb q 0) eqn:E; [| reflexivity].
    apply Qltb_lt in E. lra. }
  split; [apply Hvalid |]. apply Hvalid.
  apply Forall_forall. intros e He. unfold ingest in He.
  apply in_map_iff in He. destruct He as ([d v] & <- & Hin).
  exists v. split; [reflexivity |]. cbn [snd].
  unfold clip_lower in Hin. apply in_map_iff in Hin.
  destruct Hin as (e0 & [= _ <-] & _).
  destruct (Qltb (snd e0) 0) eqn:E; [lra |].
  destruct (Qlt_le_dec (snd e0) 0) as [L | L]; [| exact L].
  apply Qltb_lt in L. congruence.
Qed.

Lemma ingest_round_trip_witness :
  let ingest := fun s0 : Series =>
    map (fun e => (fst e, Some (snd e))) (clip_lower (fillna s0)) in
  ingest (compute_weights cfg four_days) = compute_weights cfg four_days /\
  ingest (ingest (ragged four_days)) = ingest (ragged four_days).
Proof.
  split.
  - apply (proj1 (ingest_round_trip (compute_weights cfg four_days))).
    vm_compute. repeat constructor; eexists; (split; [reflexivity |]);
      discriminate.
  - apply (proj2 (ingest_round_trip (ragged four_days))).
Defined.

(** X13: on a non-empty window of distinct dates the built-in strategy
    never makes the evaluator fail: its series has every date of the
    window, and [compute_cycle_spd] returns one row per cycle. *)
Theorem builtin_strategy_never_raises (conf : Config) (df : DataFrame) :
  let dfb := loc_slice df (BACKTEST_START conf) (BACKTEST_END conf) in
  dfb <> [] ->
  NoDup (map date dfb) ->
  exists rows,
    compute_cycle_spd conf df (compute_weights conf) = Ok rows /\
    length rows = length (cycles dfb) /\ rows <> [].
Proof.
  intros dfb Hne Hnd.
  destruct (compute_weights_emit conf df Hnd) as [Hidx _].
  destruct (compute_cycle_spd_covered conf df (compute_weights conf) Hne)
    as (rows & Hrows & HF).
  { intros r Hr. rewrite Hidx. now apply in_map. }
  exists rows. split; [exact Hrows |].
  pose proof (Forall2_length HF) as Hlen. split; [now symmetry |].
  pose proof (cycles_nonempty dfb Hne) as Hc.
  intros ->. apply Hc. unfold dfb in *.
  destruct (cycles _); [reflexivity | discriminate].
Qed.

Lemma builtin_strategy_never_raises_witness :
  exists rows,
    compute_cycle_spd cfg midyear (compute_weights cfg) = Ok rows /\
    length rows =
      length (cycles (loc_slice midyear (BACKTEST_START cfg)
                                (BACKTEST_END cfg))) /\
    rows <> [].
Proof.
  apply (builtin_strategy_never_raises cfg midyear).
  - discriminate.
  - vm_compute. repeat constructor; simpl; intuition discriminate.
Defined.

(** X14: when the window starts on 1 January of the year of
    BACKTEST_START, on distinct calendar dates and positive prices, with
    MIN_WEIGHT and the sensitivity not negative, every row of the table
    of the built-in strategy has min_spd <= dynamic_spd <= max_spd and
    min_spd <= uniform_spd <= max_spd, and a dynamic_pct that is a
    number lies between 0 and 100. *)
Theorem builtin_strategy_in_range (conf : Config) (df : DataFrame) :
  let dfb := loc_slice df (BACKTEST_START conf) (BACKTEST_END conf) in
  0 <= MIN_WEIGHT conf -> 0 <= ALPHA conf ->
  dfb <> [] ->
  NoDup (map date dfb) ->
  Forall (fun r => valid (date r) = true) dfb ->
  Forall (fun r => 0 < btc_close r) dfb ->
  index_min (map date dfb) =
    Some (mkTimestamp (year (BACKTEST_START conf)) 1 1) ->
  exists rows,
    compute_cycle_spd conf df (compute_weights conf) = Ok rows /\
    Forall (fun row =>
              min_spd row <= dynamic_spd row <= max_spd row /\
              min_spd row <= uniform_spd row <= max_spd row /\
              forall u, dynamic_pct row = Fin u -> 0 <= u <= 100)
           rows.
Proof.
  intros dfb Hmin Halpha Hne Hnd Hvalid Hpos Hlo.
  destruct (compute_weights_emit conf df Hnd) as [Hidx _].
  destruct (compute_cycle_spd_covered conf df (compute_weights conf) Hne)
    as (rows & Hrows & HF).
  { intros r Hr. rewrite Hidx. now apply in_map. }
  exists rows. split; [exact Hrows |]. fold dfb in HF.
  assert (Hall : forall c, In c (cycles dfb) ->
            forall row,
              cycle_row (clip_lower (fillna (compute_weights conf df))) c
              = Ok row ->
              min_spd row <= dynamic_spd row <= max_spd row /\
              min_spd row <= uniform_spd row <= max_spd row /\
              forall u, dynamic_pct row = Fin u -> 0 <= u <= 100).
  { intros c Hc row Hrow.
    destruct (loc_cycle_weights conf df c Hmin Halpha Hnd Hvalid Hlo Hc)
      as (Hloc & Hsum & Hnn).
    assert (Hcne : c_rows c <> []).
    { destruct (index_max (map date dfb)) as [hi |] eqn:Ehi;
        [| destruct dfb; discriminate].
      pose proof (cycles_loop dfb _ hi Hlo Ehi) as Hloop.
      eapply cycle_loop_nonempty; eauto. }
    assert (Hcpos : Forall (fun r => 0 < btc_close r) (c_rows c)).
    { rewrite Forall_forall in *. intros r Hr. apply Hpos.
      destruct (index_max (map date dfb)) as [hi |] eqn:Ehi;
        [| destruct dfb; discriminate].
      pose proof (cycles_loop dfb _ hi Hlo Ehi) as Hloop.
      now destruct (cycle_loop_rows dfb hi _ _ _ c r Hloop Hc Hr). }
    rewrite (cycle_row_ok _ c _ Hloc) in Hrow. injection Hrow as <-.
    cbn [min_spd max_spd uniform_spd dynamic_spd dynamic_pct].
    pose proof (uniform_in_range (c_rows c) Hcne Hcpos) as HU.
    assert (Hlen : length (cycle_weights conf (c_rows c))
                   = length (c_rows c)) by apply cycle_weights_length.
    pose proof (dynamic_in_range (c_rows c) Hcne Hcpos _ Hlen Hnn) as HD.
    rewrite Hsum, !Qmult_1_r in HD.
    split; [exact HD |]. split; [exact HU |].
    intros u Hu.
    destruct (low_positive (c_rows c) Hcne Hcpos) as [Hlow Hle].
    destruct (Qlt_le_dec (np_min (map btc_close (c_rows c)))
                         (np_max (map btc_close (c_rows c)))) as [L | L].
    - pose proof (spd_antitone_strict _ _ Hlow L) as Hrange.
      destruct (pct_in_range _ _ _ Hrange HD) as (u' & Eu & Hu').
      rewrite Eu in Hu. injection Hu as <-. exact Hu'.
    - assert (E : np_max (map btc_close (c_rows c))
                  == np_min (map btc_close (c_rows c))) by lra.
      assert (Hrange :
                1 / np_min (map btc_close (c_rows c)) * sats
                - 1 / np_max (map btc_close (c_rows c)) * sats == 0)
        by (rewrite E; ring).
      destruct (pct_degenerate
                  (Qsum (map (fun p => fst p * snd p)
                     (combine (cycle_weights conf (c_rows c))
                        (map (fun r => 1 / btc_close r * sats)
                             (c_rows c)))))
                  _ _ Hrange) as [Hd _].
      rewrite Hu in Hd. discriminate. }
  clear Hrows. revert HF Hall. generalize (cycles dfb).
  intros l HF Hall.
  induction HF as [| c row cs rows Hrow _ IH]; constructor.
  - apply (Hall c); [now left | exact Hrow].
  - apply IH. intros c' Hc'. apply Hall. now right.
Qed.

Lemma builtin_strategy_in_range_witness :
  exists rows,
    compute_cycle_spd cfg two_cycles (compute_weights cfg) = Ok rows /\
    Forall (fun row =>
              min_spd row <= dynamic_spd row <= max_spd row /\
              min_spd row <= uniform_spd row <= max_spd row /\
              forall u, dynamic_pct row = Fin u -> 0 <= u <= 100)
           rows.
Proof.
  apply (builtin_strategy_in_range cfg two_cycles).
  - vm_compute. discriminate.
  - vm_compute. discriminate.
  - discriminate.
  - vm_compute. repeat constructor; simpl; intuition discriminate.
  - repeat constructor.
  - repeat constructor.
  - reflexivity.
Defined.

(** Without that alignment the bound can fail: in the window that starts
    on 2013-06-01 the two groups of the allocator fall in one cycle of
    the evaluator, whose weights then sum to 2, and dynamic_spd is above
    max_spd. *)
Example midyear_out_of_range :
  exists row,
    compute_cycle_spd cfg midyear (compute_weights cfg) = Ok [row] /\
    max_spd row < dynamic_spd row.
Proof. eexists. split; vm_compute; reflexivity. Qed.

(* ================================================================== *)
(** * Further properties of the reductions *)
(* ================================================================== *)

Module ReducerMoreFacts.

Import Evaluator MetricsFacts ReducerFacts.

Local Open Scope Q_scope.

Lemma fold_fminb_Fin r : forall x,
  fold_left fminb (map Fin r) (Fin x) = Fin (fold_left Qminb r x).
Proof.
  induction r as [| a r IH]; intros x; simpl; [reflexivity |].
  rewrite <- IH. f_equal. unfold fminb, Qminb. simpl.
  now destruct (Qle_bool x a).
Qed.

Lemma fold_fmaxb_Fin r : forall x,
  fold_left fmaxb (map Fin r) (Fin x) = Fin (fold_left Qmaxb r x).
Proof.
  induction r as [| a r IH]; intros x; simpl; [reflexivity |].
  rewrite <- IH. f_equal. unfold fmaxb, Qmaxb. simpl.
  now destruct (Qle_bool x a).
Qed.

Lemma fold_fadd_Fin l : forall a,
  exists t, fold_left fadd (map Fin l) (Fin a) = Fin t /\ t == a + Qsum l.
Proof.
  induction l as [| x l IH]; intros a; simpl.
  - exists a. split; [reflexivity | ring].
  - destruct (IH (a + x)) as (t & Ht & Et). exists t.
    split; [exact Ht |]. rewrite Et. ring.
Qed.

Lemma insert_sorted_In x l y :
  In y (insert_sorted x l) -> y = x \/ In y l.
Proof.
  induction l as [| a l IH]; simpl.
  - intros [<- | []]. now left.
  - destruct (fleb x a); simpl.
    + intros [<- | H]; [now left | now right].
    + intros [<- | H]; [right; now left |].
      destruct (IH H); [now left | right; now right].
Qed.

Lemma sort_In l y : In y (sort l) -> In y l.
Proof.
  induction l as [| a l IH]; simpl; [auto |].
  intros H. apply insert_sorted_In in H.
  destruct H as [-> | H]; [now left | right; now apply IH].
Qed.

Lemma dropna_idem l : dropna (dropna l) = dropna l.
Proof.
  unfold dropna. induction l as [| x l IH]; simpl; [reflexivity |].
  destruct (negb (is_nan x)) eqn:E; simpl; [rewrite E |]; now rewrite IH.
Qed.

Lemma metrics_of_dropna l : metrics_of l = metrics_of (dropna l).
Proof.
  unfold metrics_of, series_min, series_max, series_mean, series_median.
  now rewrite dropna_idem.
Qed.

(** The statistics of a non-empty column of numbers. *)
Lemma metrics_of_Fin l :
  l <> [] ->
  exists mn mx me md,
    metrics_of (map Fin l) = mkMetrics (Fin mn) (Fin mx) (Fin me) (Fin md) /\
    mn = np_min l /\ mx = np_max l /\
    me == mean l /\
    np_min l <= md <= np_max l.
Proof.
  intros Hne.
  assert (Hfin : Forall (fun y => is_finite y = true) (map Fin l)).
  { apply Forall_forall. intros y Hy. apply in_map_iff in Hy.
    now destruct Hy as (q & <- & _). }
  unfold metrics_of, series_min, series_max, series_mean, series_median.
  rewrite (dropna_finite _ Hfin).
  destruct l as [| x r]; [congruence |]. cbn [map].
  rewrite fold_fminb_Fin, fold_fmaxb_Fin.
  destruct (fold_fadd_Fin (x :: r) 0) as (t & Ht & Et).
  unfold fsum. change (Fin x :: map Fin r) with (map Fin (x :: r)).
  rewrite Ht. cbn [fmul].
  destruct (np_min_spec (x :: r) Hne) as [_ Hmin].
  destruct (np_max_spec (x :: r) Hne) as [_ Hmax].
  assert (Hmem : forall i, (i < length (sort (map Fin (x :: r))))%nat ->
            exists q, nth i (sort (map Fin (x :: r))) NaN = Fin q /\
                      np_min (x :: r) <= q <= np_max (x :: r)).
  { intros i Hi.
    pose proof (nth_In _ NaN Hi) as Hin. apply sort_In in Hin.
    apply in_map_iff in Hin. destruct Hin as (q & Hq & Hin).
    exists q. split; [now symmetry |]. split; auto. }
  pose proof (sort_length (map Fin (x :: r))) as Hn.
  rewrite length_map in Hn.
  set (s := sort (map Fin (x :: r))) in *.
  assert (Hpos : (0 < length s)%nat) by (rewrite Hn; simpl; lia).
  assert (Hhalf : (length s / 2 < length s)%nat)
    by (apply Nat.div_lt; lia).
  assert (Hmed : exists md,
            (if Nat.even (length s)
             then fmul (fadd (nth (length s / 2 - 1) s NaN)
                             (nth (length s / 2) s NaN)) (1 / 2)
             else nth (length s / 2) s NaN) = Fin md /\
            np_min (x :: r) <= md <= np_max (x :: r)).
  { destruct (Nat.even (length s)).
    - destruct (Hmem (length s / 2 - 1)%nat) as (a & Ea & Ha); [lia |].
      destruct (Hmem (length s / 2)%nat) as (b & Eb & Hb); [lia |].
      rewrite Ea, Eb. cbn [fadd fmul]. eexists. split; [reflexivity |].
      assert (Eh : 1 / 2 == 1 # 2) by reflexivity.
      rewrite Eh. lra.
    - destruct (Hmem (length s / 2)%nat) as (b & Eb & Hb); [lia |].
      rewrite Eb. now exists b. }
  destruct Hmed as (md & Emd & Hmd).
  change (length (Fin x :: map Fin r)) with (length (map Fin (x :: r))).
  rewrite length_map.
  eexists _, _, _, md. split.
  - f_equal. exact Emd.
  - split; [reflexivity |]. split; [reflexivity |]. split; [| exact Hmd].
    unfold mean. rewrite Et. field.
    assert (Hp : 0 < inject_Z (Z.of_nat (length (x :: r))))
      by (apply ScanFacts.inject_nat_pos; simpl; lia).
    lra.
Qed.

End ReducerMoreFacts.

Import ReducerMoreFacts.

(** X15: for a table of at least one row, the statistics of dynamic_spd
    are numbers: min and max are the least and the greatest dynamic_spd
    of the table, the mean is their arithmetic mean, and mean and median
    lie between min and max. *)
Theorem summary_spd_order (df_res : list CycleRow) :
  df_res <> [] ->
  let column := map dynamic_spd df_res in
  exists mn mx me md,
    fst (summarize df_res) = mkMetrics (Fin mn) (Fin mx) (Fin me) (Fin md) /\
    In mn column /\ In mx column /\
    (forall x, In x column -> mn <= x <= mx) /\
    me == mean column /\
    mn <= me <= mx /\ mn <= md <= mx.
Proof.
  intros Hne column.
  assert (Hc : column <> [])
    by (unfold column; destruct df_res; [congruence | discriminate]).
  destruct (metrics_of_Fin column Hc) as (mn & mx & me & md & E & -> & -> & Eme & Hmd).
  exists (np_min column), (np_max column), me, md.
  destruct (np_min_spec column Hc) as [Imin Hmin].
  destruct (np_max_spec column Hc) as [Imax Hmax].
  split.
  - unfold summarize. cbn [fst]. rewrite <- E. unfold column.
    now rewrite map_map.
  - split; [exact Imin |]. split; [exact Imax |].
    split; [intros y Hy; split; auto |].
    split; [exact Eme |]. split; [| exact Hmd].
    rewrite Eme. apply mean_bounds; [exact Hc |].
    intros y Hy. split; auto.
Qed.

Lemma summary_spd_order_witness :
  let df_res :=
    [ mkCycleRow (2013, 2016)%Z 1 4 2 3 (Fin 25) (Fin 50) (Fin 25);
      mkCycleRow (2017, 2020)%Z 2 6 3 5 (Fin 25) NaN NaN;
      mkCycleRow (2021, 2024)%Z 2 8 3 4 (Fin 25) (Fin 75) (Fin 50) ] in
  let column := map dynamic_spd df_res in
  exists mn mx me md,
    fst (summarize df_res) = mkMetrics (Fin mn) (Fin mx) (Fin me) (Fin md) /\
    In mn column /\ In mx column /\
    (forall x, In x column -> mn <= x <= mx) /\
    me == mean column /\
    mn <= me <= mx /\ mn <= md <= mx.
Proof.
  apply summary_spd_order. discriminate.
Defined.

(** X16: the rows whose dynamic_pct is NaN (degenerate cycles) are left
    out of the percentile statistics: these are the statistics of the
    remaining rows, and they are numbers as soon as one row has a finite
    dynamic_pct and none has an infinite one. *)
Theorem summary_pct_skips_nan (df_res : list CycleRow) :
  snd (summarize df_res) = metrics_of (dropna (map dynamic_pct df_res)) /\
  ((exists r, In r df_res /\ is_finite (dynamic_pct r) = true) ->
   Forall (fun r => is_finite (dynamic_pct r) = true \/ dynamic_pct r = NaN)
          df_res ->
   let pct := snd (summarize df_res) in
   is_finite (m_min pct) = true /\ is_finite (m_max pct) = true /\
   is_finite (m_mean pct) = true /\ is_finite (m_median pct) = true).
Proof.
  assert (E : snd (summarize df_res)
              = metrics_of (dropna (map dynamic_pct df_res))).
  { unfold summarize. cbn [snd]. apply metrics_of_dropna. }
  split; [exact E |].
  intros (r & Hr & Hfin) Hall pct. unfold pct. rewrite E.
  apply metrics_of_finite.
  - intros Hnil.
    assert (Hin : In (dynamic_pct r) (dropna (map dynamic_pct df_res))).
    { unfold dropna. apply filter_In. split; [now apply in_map |].
      destruct (dynamic_pct r); try discriminate. reflexivity. }
    rewrite Hnil in Hin. destruct Hin.
  - apply Forall_forall. intros y Hy. unfold dropna in Hy.
    apply filter_In in Hy. destruct Hy as [Hy Hnn].
    apply in_map_iff in Hy. destruct Hy as (r' & <- & Hr').
    rewrite Forall_forall in Hall.
    destruct (Hall r' Hr') as [H | H]; [exact H |].
    rewrite H in Hnn. discriminate.
Qed.

Lemma summary_pct_skips_nan_witness :
  let df_res :=
    [ mkCycleRow (2013, 2016)%Z 1 4 2 3 (Fin 25) (Fin 50) (Fin 25);
      mkCycleRow (2017, 2020)%Z 2 6 3 5 (Fin 25) NaN NaN;
      mkCycleRow (2021, 2024)%Z 2 8 3 4 (Fin 25) (Fin 75) (Fin 50) ] in
  let pct := snd (summarize df_res) in
  pct = metrics_of [Fin 50; Fin 75] /\
  is_finite (m_min pct) = true /\ is_finite (m_max pct) = true /\
  is_finite (m_mean pct) = true /\ is_finite (m_median pct) = true.
Proof.
  cbv zeta.
  destruct (summary_pct_skips_nan
     [ mkCycleRow (2013, 2016)%Z 1 4 2 3 (Fin 25) (Fin 50) (Fin 25);
       mkCycleRow (2017, 2020)%Z 2 6 3 5 (Fin 25) NaN NaN;
       mkCycleRow (2021, 2024)%Z 2 8 3 4 (Fin 25) (Fin 75) (Fin 50) ])
    as [E H].
  split; [exact E |]. apply H.
  - eexists. split; [left; reflexivity | reflexivity].
  - constructor; [left; reflexivity |].
    constructor; [right; reflexivity |].
    constructor; [left; reflexivity | constructor].
Defined.

(* ================================================================== *)
(** * The rolling mean of [construct_features] *)
(* ================================================================== *)

Module FeatureFacts.

Import Allocator Evaluator Features ScanFacts MetricsFacts.

Local Open Scope Q_scope.

Lemma in_firstn {A} n : forall (l : list A) x, In x (firstn n l) -> In x l.
Proof.
  induction n as [| n IH]; intros [| a l] x H; simpl in *; try tauto.
  destruct H as [-> | H]; [now left | right; now apply IH].
Qed.

Lemma in_skipn {A} n : forall (l : list A) x, In x (skipn n l) -> In x l.
Proof.
  induction n as [| n IH]; intros [| a l] x H; simpl in *; try tauto.
  right. now apply IH.
Qed.

Lemma rolling_window_length w i s :
  (i < length s)%nat ->
  length (rolling_window w i s) = Nat.min (S i) w.
Proof.
  intros Hi. unfold rolling_window.
  rewrite length_skipn, length_firstn. lia.
Qed.

Lemma rolling_window_In w i s x :
  In x (rolling_window w i s) -> In x (firstn (S i) s).
Proof. unfold rolling_window. apply in_skipn. Qed.

Lemma ma100_column_nth_error s i :
  (i < length s)%nat ->
  nth_error (ma100_column s) i =
  Some (Some (mean (rolling_window 100 i s))).
Proof.
  intros Hi. unfold ma100_column.
  assert (E : (1 <=? length (rolling_window 100 i s))%nat = true).
  { apply Nat.leb_le. rewrite (rolling_window_length 100 i s Hi). lia. }
  assert (Hseq : nth_error (seq 0 (length s)) i = Some i).
  { rewrite nth_error_seq.
    assert (E' : (i <? length s)%nat = true) by now apply Nat.ltb_lt.
    now rewrite E'. }
  rewrite (map_nth_error _ _ _ Hseq). cbv zeta. now rewrite E.
Qed.

Lemma sorted_firstn_le :
  forall (l : list Q) i,
    StronglySorted Qle l -> (i < length l)%nat ->
    forall x, In x (firstn (S i) l) -> x <= nth i l 0.
Proof.
  induction l as [| a l IH]; intros i Hs Hi x Hx; [simpl in Hi; lia |].
  inversion Hs as [| ? ? Hs' Hall]; subst.
  destruct i as [| i].
  - simpl in Hx. destruct Hx as [<- | []]. simpl. lra.
  - rewrite firstn_cons in Hx. cbn [nth]. simpl in Hi.
    destruct Hx as [<- | Hx].
    + rewrite Forall_forall in Hall. apply Hall. apply nth_In. lia.
    + apply IH; auto. lia.
Qed.

Lemma Forall2_nth_error {A B} (R : A -> B -> Prop) l l' :
  Forall2 R l l' ->
  forall i a b,
    nth_error l i = Some a -> nth_error l' i = Some b -> R a b.
Proof.
  induction 1 as [| x y l l' Hxy _ IH]; intros [| i] a b Ha Hb;
    simpl in *; try discriminate.
  - congruence.
  - eauto.
Qed.

End FeatureFacts.

Import Features FeatureFacts.

(** X18: the ma100 of a row is the mean of the prices of the last 100
    rows up to it (of all the rows up to it while there are fewer), it
    lies between the lowest and the highest of these prices, and on the
    first row it is the price itself. *)
Theorem ma100_in_window (s : list Q) (i : nat) :
  (i < length s)%nat ->
  let obs := rolling_window 100 i s in
  nth_error (ma100_column s) i = Some (Some (mean obs)) /\
  length obs = Nat.min (S i) 100 /\
  ((i < 100)%nat -> obs = firstn (S i) s) /\
  (forall x, In x obs -> In x s) /\
  np_min obs <= mean obs <= np_max obs /\
  (i = 0%nat -> mean obs == nth 0 s 0).
Proof.
  intros Hi obs.
  pose proof (rolling_window_length 100 i s Hi) as Hlen. fold obs in Hlen.
  assert (Hne : obs <> []).
  { intros E. rewrite E in Hlen. simpl in Hlen. lia. }
  split; [| split; [exact Hlen | split; [| split; [| split]]]].
  - exact (ma100_column_nth_error s i Hi).
  - intros H100. unfold obs, rolling_window.
    replace (S i - 100)%nat with 0%nat by lia. reflexivity.
  - intros x Hx. apply rolling_window_In in Hx. eapply in_firstn; eauto.
  - destruct (np_min_spec obs Hne) as [_ Hmin].
    destruct (np_max_spec obs Hne) as [_ Hmax].
    apply mean_bounds; [exact Hne |]. intros x Hx. split; auto.
  - intros ->. unfold obs, rolling_window.
    destruct s as [| x s]; [simpl in Hi; lia |].
    simpl. unfold mean. simpl. field.
Qed.

Lemma ma100_in_window_witness :
  let s := [100; 110; 130] in
  let obs := rolling_window 100 2 s in
  nth_error (ma100_column s) 2 = Some (Some (mean obs)) /\
  length obs = Nat.min 3 100 /\
  ((2 < 100)%nat -> obs = firstn 3 s) /\
  (forall x, In x obs -> In x s) /\
  np_min obs <= mean obs <= np_max obs /\
  (2%nat = 0%nat -> mean obs == nth 0 s 0).
Proof.
  apply (ma100_in_window [100; 110; 130] 2). simpl. lia.
Defined.

(** X19: on a frame whose ma100 column is the one [construct_features]
    writes and whose prices never fall from one row to the next, no day
    is below its trailing mean, so [compute_weights] gives every cycle
    the uniform weights 1/N. *)
Theorem rising_market_uniform (conf : Config) (df : DataFrame) :
  has_ma100 df ->
  StronglySorted Qle (map btc_close df) ->
  forall k g,
    In (k, g)
       (groupby (fun r => cycle_label (year (BACKTEST_START conf)) (date r))
                (loc_slice df (BACKTEST_START conf) (BACKTEST_END conf))) ->
    cycle_weights conf g =
    repeat (1 / inject_Z (Z.of_nat (length g))) (length g).
Proof.
  intros Hma Hsorted k g Hg.
  assert (Hno : forall r, In r df -> ~ btc_close r < ma100 r).
  { intros r Hr Hlt. apply In_nth_error in Hr. destruct Hr as [i Hi].
    assert (Hlen : (i < length (map btc_close df))%nat).
    { rewrite length_map. apply nth_error_Some. congruence. }
    pose proof (ma100_column_nth_error (map btc_close df) i Hlen) as Hnth.
    pose proof (rolling_window_length 100 i (map btc_close df) Hlen)
      as Hobs.
    assert (Hm : ma100 r == mean (rolling_window 100 i (map btc_close df))).
    { exact (Forall2_nth_error _ _ _ Hma i r _ Hi Hnth). }
    assert (Hne : rolling_window 100 i (map btc_close df) <> []).
    { intros E. rewrite E in Hobs. simpl in Hobs. lia. }
    assert (Hp : nth i (map btc_close df) 0 = btc_close r).
    { apply nth_error_nth. now apply map_nth_error. }
    destruct (np_min_spec _ Hne) as [_ Hmin].
    assert (Hle : mean (rolling_window 100 i (map btc_close df))
                  <= btc_close r).
    { apply (mean_bounds
               (np_min (rolling_window 100 i (map btc_close df)))).
      - exact Hne.
      - intros x Hx. split; [now apply Hmin |].
        rewrite <- Hp. apply sorted_firstn_le; auto.
        eapply rolling_window_In; eauto. }
    lra. }
  apply groupby_In in Hg. destruct Hg as [_ Hg].
  unfold cycle_weights. apply ScanMoreFacts.scan_unchanged.
  intros i w Hi. apply in_seq in Hi.
  destruct (nth_error g i) as [r |] eqn:E.
  - apply (ScanMoreFacts.body_no_dip conf g i w r E).
    intros sd _ [Hlt _]. apply (Hno r); [| exact Hlt].
    apply nth_error_In in E. rewrite Hg in E.
    apply filter_In in E. destruct E as [E _].
    unfold loc_slice in E. now apply filter_In in E.
  - apply nth_error_None in E. lia.
Qed.

Lemma rising_market_uniform_witness :
  cycle_weights cfg rising = repeat (1 / inject_Z (Z.of_nat 3)) 3.
Proof.
  apply (rising_market_uniform cfg rising) with (k := 0%Z).
  - repeat constructor; vm_compute; reflexivity.
  - repeat constructor; vm_compute; discriminate.
  - vm_compute. left. reflexivity.
Defined.

(* ================================================================== *)
(** * The listing of the strategies *)
(* ================================================================== *)

Module RegistryFacts.

Import Registry.
Import String.StringSyntax.

Lemma insert_item_perm e l : Permutation (insert_item e l) (e :: l).
Proof.
  induction l as [| x r IH]; simpl; [reflexivity |].
  destruct (String.leb (fst e) (fst x)); [reflexivity |].
  rewrite IH. apply perm_swap.
Qed.

Lemma sorted_items_perm l : Permutation (sorted_items l) l.
Proof.
  induction l as [| x r IH]; simpl; [reflexivity |].
  rewrite insert_item_perm. now constructor.
Qed.

Lemma insert_item_sorted e l :
  Sorted (fun a b => String.leb (fst a) (fst b) = true) l ->
  Sorted (fun a b => String.leb (fst a) (fst b) = true) (insert_item e l).
Proof.
  induction 1 as [| x r Hr IH Hd]; simpl.
  - repeat constructor.
  - destruct (String.leb (fst e) (fst x)) eqn:E.
    + constructor; [now constructor | now constructor].
    + constructor; [exact IH |].
      assert (Hxe : String.leb (fst x) (fst e) = true).
      { destruct (String.leb_total (fst e) (fst x)); congruence. }
      destruct r as [| y r]; simpl.
      * now constructor.
      * destruct (String.leb (fst e) (fst y)); constructor; auto.
        now inversion Hd.
Qed.

Lemma sorted_items_sorted l :
  Sorted (fun a b => String.leb (fst a) (fst b) = true) (sorted_items l).
Proof.
  induction l; simpl; [constructor | now apply insert_item_sorted].
Qed.

Lemma filter_partition_perm {A} (p : A -> bool) l :
  Permutation (filter p l ++ filter (fun x => negb (p x)) l) l.
Proof.
  induction l as [| x l IH]; simpl; [reflexivity |].
  destruct (p x); simpl.
  - now constructor.
  - rewrite <- Permutation_middle. now constructor.
Qed.

Lemma sorted_items_nil l : sorted_items l = [] -> l = [].
Proof.
  intros H. pose proof (sorted_items_perm l) as P. rewrite H in P.
  now apply Permutation_nil in P.
Qed.

Lemma section_sorted title rule d :
  section title rule d =
  match sorted_items d with
  | [] => []
  | _ :: _ => [String.append newline title; rule]
              ++ map line (sorted_items d)
  end.
Proof.
  unfold section. destruct d as [| x d]; [reflexivity |].
  destruct (sorted_items (x :: d)) eqn:E; [| reflexivity].
  apply sorted_items_nil in E. discriminate.
Qed.

Lemma first_sentence_split s :
  exists rest,
    s = String.append (first_sentence s) rest /\
    (rest = String.EmptyString \/ exists r, rest = String.String dot r).
Proof.
  induction s as [| c s IH]; cbn [first_sentence].
  - exists String.EmptyString. split; [reflexivity | now left].
  - destruct (Ascii.eqb c dot) eqn:E.
    + apply Ascii.eqb_eq in E. subst c.
      eexists. split; [reflexivity | right; now eexists].
    + destruct IH as (rest & Hs & Hrest). exists rest.
      split; [cbn [String.append]; f_equal; exact Hs | exact Hrest].
Qed.

Lemma first_sentence_no_dot s c :
  In c (String.list_ascii_of_string (first_sentence s)) -> c <> dot.
Proof.
  induction s as [| a s IH]; cbn [first_sentence]; [simpl; tauto |].
  destruct (Ascii.eqb a dot) eqn:E; [simpl; tauto |].
  cbn [String.list_ascii_of_string]. intros [<- | H]; [| now apply IH].
  now apply Ascii.eqb_neq in E.
Qed.

Lemma prefix_append s : forall t,
  String.prefix s (String.append s t) = true.
Proof.
  induction s as [| c s IH]; intros t; simpl.
  - now destruct t.
  - destruct (Ascii.ascii_dec c c); [apply IH | congruence].
Qed.

Lemma length_spaces n : String.length (spaces n) = n.
Proof. induction n; simpl; auto. Qed.

Lemma length_append s t :
  String.length (String.append s t) = (String.length s + String.length t)%nat.
Proof. induction s; simpl; auto. Qed.

End RegistryFacts.

Import Registry RegistryFacts.

(** X20: [list_available_strategies] returns the dict it was given.  For
    an empty dict it prints the single line that no strategy is
    available.  Otherwise, after the two header lines, every strategy has
    exactly one line: the strategies whose name starts with dynamic_dca
    or uniform_dca under "Core Strategies", the others under "Custom
    Strategies", each section in ascending order of name and left out
    when it has no strategy. *)
Theorem strategies_listed_once (strategies : Strategies) :
  snd (list_available_strategies strategies) = strategies /\
  (strategies = [] ->
   fst (list_available_strategies strategies) = [no_strategies]) /\
  (strategies <> [] ->
   exists core custom,
     fst (list_available_strategies strategies) =
       header
       ++ match core with
          | [] => []
          | _ :: _ => [String.append newline core_title; core_rule]
                      ++ map line core
          end
       ++ match custom with
          | [] => []
          | _ :: _ => [String.append newline custom_title; custom_rule]
                      ++ map line custom
          end /\
     Permutation (core ++ custom) strategies /\
     Forall (fun e => is_core (fst e) = true) core /\
     Forall (fun e => is_core (fst e) = false) custom /\
     Sorted (fun a b => String.leb (fst a) (fst b) = true) core /\
     Sorted (fun a b => String.leb (fst a) (fst b) = true) custom).
Proof.
  split; [destruct strategies; reflexivity |].
  split; [intros ->; reflexivity |].
  intros Hne. destruct strategies as [| e0 rest]; [congruence |].
  set (strategies := e0 :: rest).
  exists (sorted_items (filter (fun e => is_core (fst e)) strategies)),
         (sorted_items (filter (fun e => negb (is_core (fst e))) strategies)).
  split; [| split; [| split; [| split; [| split]]]].
  - unfold list_available_strategies. fold strategies. cbn [fst].
    now rewrite !section_sorted.
  - rewrite !sorted_items_perm. apply filter_partition_perm.
  - apply Forall_forall. intros e He.
    apply (Permutation_in _ (sorted_items_perm _)) in He.
    now apply filter_In in He.
  - apply Forall_forall. intros e He.
    apply (Permutation_in _ (sorted_items_perm _)) in He.
    apply filter_In in He. destruct He as [_ He].
    now apply negb_true_iff in He.
  - apply sorted_items_sorted.
  - apply sorted_items_sorted.
Qed.

(** X21: the line of a strategy: the name is padded with spaces to 20
    characters and never cut, so that the descriptions of names of at
    most 20 characters start in the same column; the description shown
    is the text before the first '.' of the description (it has no '.',
    and the description is that text, alone or followed by a '.' and the
    rest), and "No description" for [None] and for the empty string. *)
Theorem listing_line_format (name : String.string)
        (description : option String.string) :
  String.length (pad20 name) = Nat.max 20 (String.length name) /\
  String.prefix name (pad20 name) = true /\
  String.length (line (name, description)) =
    (2 + Nat.max 20 (String.length name) + 2
     + String.length (shown description))%nat /\
  match description with
  | None | Some String.EmptyString =>
      shown description = no_description
  | Some d =>
      (exists rest,
         d = String.append (shown description) rest /\
         (rest = String.EmptyString \/
          exists r, rest = String.String dot r)) /\
      forall c, In c (String.list_ascii_of_string (shown description)) ->
                c <> dot
  end.
Proof.
  assert (Hpad : String.length (pad20 name)
                 = Nat.max 20 (String.length name)).
  { unfold pad20. rewrite length_append, length_spaces. lia. }
  split; [exact Hpad |]. split; [| split].
  - unfold pad20. apply prefix_append.
  - unfold line. cbn [fst snd]. rewrite !length_append, Hpad.
    simpl String.length. lia.
  - destruct description as [[| c d] |]; try reflexivity.
    split.
    + apply (first_sentence_split (String.String c d)).
    + apply (first_sentence_no_dot (String.String c d)).
Qed.

Lemma strategies_listed_once_witness :
  exists core custom,
    fst (list_available_strategies sample_registry) =
      header
      ++ match core with
         | [] => []
         | _ :: _ => [String.append newline core_title; core_rule]
                     ++ map line core
         end
      ++ match custom with
         | [] => []
         | _ :: _ => [String.append newline custom_title; custom_rule]
                     ++ map line custom
         end /\
    Permutation (core ++ custom) sample_registry /\
    Forall (fun e => is_core (fst e) = true) core /\
    Forall (fun e => is_core (fst e) = false) custom /\
    Sorted (fun a b => String.leb (fst a) (fst b) = true) core /\
    Sorted (fun a b => String.leb (fst a) (fst b) = true) custom.
Proof.
  apply (proj2 (proj2 (strategies_listed_once sample_registry))).
  discriminate.
Defined.

(** The names of the lines of the sample dict, in the order printed. *)
Example sample_registry_order :
  map fst (sorted_items (filter (fun e => is_core (fst e)) sample_registry))
  ++ map fst (sorted_items
                (filter (fun e => negb (is_core (fst e))) sample_registry))
  = map fst [ List.nth 2 sample_registry (String.EmptyString, None);
              List.nth 0 sample_registry (String.EmptyString, None);
              List.nth 1 sample_registry (String.EmptyString, None) ] /\
  length (fst (list_available_strategies sample_registry)) = 9%nat.
Proof. split; reflexivity. Qed.

(* ================================================================== *)
(** * The weights do not depend on the unit of the price *)
(* ================================================================== *)

Module UnitFacts.

Import Allocator ScanFacts Units.

Local Open Scope Q_scope.

Lemma Qltb_scale c x y : 0 < c -> Qltb (c * x) (c * y) = Qltb x y.
Proof.
  intros Hc. destruct (Qltb x y) eqn:E.
  - apply Qltb_lt. apply Qltb_lt in E. now apply Qmult_lt_l.
  - destruct (Qltb (c * x) (c * y)) eqn:E'; [| reflexivity].
    apply Qltb_lt in E'. apply Qmult_lt_l in E'; [| assumption].
    apply Qltb_lt in E'. congruence.
Qed.

Lemma Qltb_scale_0 c x : 0 < c -> Qltb 0 (c * x) = Qltb 0 x.
Proof.
  intros Hc. rewrite <- (Qltb_scale c 0 x Hc). unfold Qltb.
  assert (E : c * 0 == 0) by ring. now rewrite E.
Qed.

Lemma Forall2_Qeq_refl l : Forall2 Qeq l l.
Proof. induction l; constructor; auto. reflexivity. Qed.

Lemma Forall2_Qeq_nth w' w i :
  Forall2 Qeq w' w -> nth i w' 0 == nth i w 0.
Proof.
  intros H. revert i. induction H as [| x y l l' Hxy _ IH]; intros [| i];
    simpl; auto; reflexivity.
Qed.

Lemma Forall2_Qeq_upd w' w i v' v :
  Forall2 Qeq w' w -> v' == v -> Forall2 Qeq (upd i v' w') (upd i v w).
Proof.
  intros H Hv. revert i.
  induction H as [| x y l l' Hxy Hr IH]; intros [| i]; simpl;
    constructor; auto.
Qed.

Lemma Forall2_Qeq_sub_from w' w s r' r :
  Forall2 Qeq w' w -> r' == r ->
  Forall2 Qeq (sub_from s r' w') (sub_from s r w).
Proof.
  intros H Hr. revert s.
  induction H as [| x y l l' Hxy Hl IH]; intros [| s]; simpl;
    constructor; auto.
  now rewrite Hxy, Hr.
Qed.

Lemma Forall2_Qeq_skipn w' w s :
  Forall2 Qeq w' w -> Forall2 Qeq (skipn s w') (skipn s w).
Proof.
  intros H. revert s.
  induction H as [| x y l l' Hxy Hl IH]; intros [| s]; simpl; auto.
Qed.

Lemma forallb_floor_Qeq m l' l r' r :
  Forall2 Qeq l' l -> r' == r ->
  forallb (fun p => Qle_bool m p) (map (fun x => x - r') l') =
  forallb (fun p => Qle_bool m p) (map (fun x => x - r) l).
Proof.
  intros H Hr. induction H as [| x y l' l Hxy _ IH]; simpl; [reflexivity |].
  rewrite IH. f_equal. apply Qleb_comp; [reflexivity |].
  now rewrite Hxy, Hr.
Qed.

Section Rescale.

Variable cfg : Config.
Variable group : DataFrame.
Variable c : Q.
Hypothesis c_pos : 0 < c.

(** The two outcomes of a step agree, up to the value of the weights. *)
Definition same_outcome (o' o : outcome) : Prop :=
  match o', o with
  | NoBoost, NoBoost | Skip, Skip | Reject, Reject => True
  | Commit s' w', Commit s w => s' = s /\ Forall2 Qeq w' w
  | _, _ => False
  end.

Lemma attempt_rescale i w' w :
  Forall2 Qeq w' w ->
  same_outcome (attempt cfg (map (rescale c) group) i w')
               (attempt cfg group i w).
Proof.
  intros Hw. unfold attempt. rewrite length_map, nth_error_map.
  destruct (nth_error group i) as [r |]; cbn [option_map]; [| exact I].
  unfold rescale. cbn [btc_close ma100 std100].
  destruct (std100 r) as [sd |]; cbn [option_map]; [| exact I].
  rewrite (Qltb_scale c _ _ c_pos), (Qltb_scale_0 c _ c_pos).
  destruct (Qltb (btc_close r) (ma100 r) && Qltb 0 sd) eqn:E; [| exact I].
  apply andb_true_iff in E. destruct E as [_ Hsd]. apply Qltb_lt in Hsd.
  destruct (Z.of_nat (length group) <=? _)%Z; [exact I |].
  set (s := Z.to_nat _).
  assert (Hz : (c * ma100 r - c * btc_close r) / (c * sd)
               == (ma100 r - btc_close r) / sd) by (field; lra).
  pose proof (Forall2_Qeq_nth w' w i Hw) as Hcur.
  assert (Hb : nth i w' 0 * (1 + ALPHA cfg
                 * ((c * ma100 r - c * btc_close r) / (c * sd)))
               == nth i w 0 * (1 + ALPHA cfg
                 * ((ma100 r - btc_close r) / sd)))
    by now rewrite Hz, Hcur.
  assert (Hred :
            (nth i w' 0 * (1 + ALPHA cfg
               * ((c * ma100 r - c * btc_close r) / (c * sd)))
             - nth i w' 0) / inject_Z (Z.of_nat (length group - s))
            == (nth i w 0 * (1 + ALPHA cfg
                  * ((ma100 r - btc_close r) / sd))
                - nth i w 0) / inject_Z (Z.of_nat (length group - s)))
    by now rewrite Hb, Hcur.
  rewrite (forallb_floor_Qeq (MIN_WEIGHT cfg) _ _ _ _
             (Forall2_Qeq_skipn w' w s Hw) Hred).
  destruct (forallb _ _); [| exact I].
  split; [reflexivity |].
  apply Forall2_Qeq_sub_from; [| exact Hred].
  now apply Forall2_Qeq_upd.
Qed.

Lemma scan_rescale indices :
  forall w' w a,
    Forall2 Qeq w' w ->
    Forall2 Qeq (scan cfg (map (rescale c) group) indices w' a)
                (scan cfg group indices w a).
Proof.
  induction indices as [| i rest IH]; intros w' w a Hw; simpl; auto.
  destruct a; simpl; auto.
  pose proof (attempt_rescale i w' w Hw) as H. unfold body.
  destruct (attempt cfg (map (rescale c) group) i w') as [| | s' v' |];
    destruct (attempt cfg group i w) as [| | s v |]; simpl in H;
    try contradiction; try (apply IH; assumption).
  destruct H as [_ H]. apply IH; assumption.
Qed.

End Rescale.

End UnitFacts.

Import Units UnitFacts.

(** X22: the weights do not depend on the unit of the price: a cycle
    whose prices, trailing means and deviations are all multiplied by a
    positive constant gets, day by day, weights of the same value. *)
Theorem weights_unit_free (conf : Config) (group : DataFrame) (c : Q) :
  0 < c ->
  Forall2 Qeq (cycle_weights conf (map (rescale c) group))
              (cycle_weights conf group).
Proof.
  intros Hc. unfold cycle_weights. rewrite length_map.
  apply scan_rescale; [assumption | apply Forall2_Qeq_refl].
Qed.

Lemma weights_unit_free_witness :
  Forall2 Qeq (cycle_weights cfg (map (rescale 100) four_days))
              (cycle_weights cfg four_days).
Proof.
  apply (weights_unit_free cfg four_days 100). reflexivity.
Defined.
